(** * mern-chat-blog: the server entry point, [server/server.js]

    A shallow embedding of the two coordinating parts of the server:
    the server-side rendering middleware (route match, data prefetch,
    markup rendering, page assembly, error fallback) and the socket.io
    connection list with its event relay.

    JavaScript values are modelled by the inductive [value]; the
    built-ins the file relies on ([JSON.stringify], [JSON.parse],
    [Array.prototype.indexOf], [Array.prototype.splice], template
    literal interpolation) are modelled next to it, following
    ECMAScript.  Exceptions are results of the error monad [result],
    which has a third outcome for the runs that need a number or a
    string the values of the model do not include. *)

From Stdlib Require Import ZArith List String Ascii Bool Lia Eqdep_dec.
From Stdlib Require Decimal DecimalString DecimalFacts DecimalPos DecimalN DecimalZ.
Import ListNotations.

Local Open Scope string_scope.
Local Open Scope Z_scope.

(* ===================================================================== *)
(** * Part I: definitions                                                 *)
(* ===================================================================== *)

(** ** JavaScript values, exceptions and the built-ins used by the file *)

Module JS.

(** The numbers of the model are the safe integers, those of magnitude
    up to 2^53 - 1: a double holds each of them exactly and
    Number::toString writes all their digits.  Zero stands for both
    zeros, which none of the operations below tells apart. *)
Definition safe_integer (z : Z) : bool := Z.abs z <=? 9007199254740991.

Record number : Type := {
  integer : Z;
  integer_safe : safe_integer integer = true
}.

(** The number an integer denotes, when it is safe. *)
Definition to_number (z : Z) : option number :=
  match bool_dec (safe_integer z) true with
  | left H => Some {| integer := z; integer_safe := H |}
  | right _ => None
  end.

(** Strings are sequences of code units below 256.  An object lists its
    own enumerable properties in enumeration order. *)
#[local] Unset Elimination Schemes.
Inductive value : Type :=
| VUndefined
| VNull
| VBool (b : bool)
| VNumber (n : number)
| VStr (s : string)
| VArr (elems : list value)
| VObj (props : list (string * value)).
#[local] Set Elimination Schemes.

(** A number literal. *)
Abbreviation VNum n := (VNumber (Build_number n eq_refl)).

(** What a [throw] carries: the two built-in errors the modelled code can
    raise, or the rejection reason handed over by a collaborator. *)
Inductive exn : Type :=
| TypeError
| SyntaxError
| Rejected (reason : value).

(** How an evaluation ends: with a value, with an exception, or at a
    point where it needs a value the model does not have (a number that
    is not a safe integer, a code unit above 255).  Nothing is stated
    about a run that ends in [Unmodelled]. *)
Inductive result (A : Type) : Type :=
| Ok (a : A)
| Throw (e : exn)
| Unmodelled.
Arguments Ok {A} a.
Arguments Throw {A} e.
Arguments Unmodelled {A}.

Definition bind {A B : Type} (m : result A) (k : A -> result B) : result B :=
  match m with
  | Ok a => k a
  | Throw e => Throw e
  | Unmodelled => Unmodelled
  end.

Declare Scope js_scope.
Delimit Scope js_scope with js.
Notation "x <- m ;; k" := (bind m (fun x => k))
  (at level 61, m at next level, right associativity) : js_scope.

(** Induction over values that reaches inside arrays and objects. *)
Fixpoint value_nested_ind (P : value -> Prop)
    (Hundefined : P VUndefined) (Hnull : P VNull)
    (Hbool : forall b, P (VBool b)) (Hnum : forall n, P (VNumber n))
    (Hstr : forall s, P (VStr s))
    (Harr : forall l, Forall P l -> P (VArr l))
    (Hobj : forall l, Forall (fun kv => P (snd kv)) l -> P (VObj l))
    (v : value) {struct v} : P v :=
  let rec := value_nested_ind P Hundefined Hnull Hbool Hnum Hstr Harr Hobj in
  match v with
  | VUndefined => Hundefined
  | VNull => Hnull
  | VBool b => Hbool b
  | VNumber n => Hnum n
  | VStr s => Hstr s
  | VArr l =>
      Harr l ((fix go (l : list value) : Forall P l :=
                 match l with
                 | [] => Forall_nil P
                 | x :: r => Forall_cons x (rec x) (go r)
                 end) l)
  | VObj l =>
      Hobj l ((fix go (l : list (string * value)) : Forall (fun kv => P (snd kv)) l :=
                 match l with
                 | [] => Forall_nil _
                 | kv :: r => Forall_cons kv (rec (snd kv)) (go r)
                 end) l)
  end.

(** [a === 'literal']: strict equality against a string literal. *)
Definition strict_eq_str (v : value) (lit : string) : bool :=
  match v with
  | VStr s => String.eqb s lit
  | _ => false
  end.

(** Own-property lookup in an object's property list. *)
Fixpoint lookup (k : string) (l : list (string * value)) : option value :=
  match l with
  | [] => None
  | (k', v) :: r => if String.eqb k' k then Some v else lookup k r
  end.

(** [v.k] / [v[k]] for the property names the file reads ([type], [post],
    [comment], [stack], the manifest paths): none of them is a built-in
    property of a primitive wrapper or of an array, so only objects can
    hold them.
    Reading a property of [undefined] or [null] throws a TypeError. *)
Definition get (v : value) (k : string) : result value :=
  match v with
  | VUndefined | VNull => Throw TypeError
  | VObj l => Ok (match lookup k l with Some x => x | None => VUndefined end)
  | _ => Ok VUndefined
  end.

(** *** Arrays *)

Section Arrays.
Context {A : Type} (eqb : A -> A -> bool).

Fixpoint indexOf_from (l : list A) (x : A) (i : Z) : Z :=
  match l with
  | [] => -1
  | y :: r => if eqb y x then i else indexOf_from r x (i + 1)
  end.

(** [l.indexOf(x)]: the first index holding [x], or [-1]. *)
Definition Array_indexOf (l : list A) (x : A) : Z := indexOf_from l x 0.

(** [l.push(x)], as the array it leaves behind. *)
Definition Array_push (l : list A) (x : A) : list A := (l ++ [x])%list.

(** [l.splice(start, deleteCount)], as the array it leaves behind: a
    negative [start] counts from the end, and both bounds are clamped
    (ECMAScript, Array.prototype.splice, steps 3 to 9). *)
Definition Array_splice (l : list A) (start deleteCount : Z) : list A :=
  let len := Z.of_nat (List.length l) in
  let actualStart :=
    if start <? 0 then Z.max (len + start) 0 else Z.min start len in
  let actualDeleteCount := Z.min (Z.max deleteCount 0) (len - actualStart) in
  (firstn (Z.to_nat actualStart) l
     ++ skipn (Z.to_nat (actualStart + actualDeleteCount)) l)%list.
End Arrays.


(** *** Text *)

(** The double quote, the backslash and the line feed. *)
Definition dquote : ascii := "034"%char.
Definition backslash : ascii := "092"%char.
Definition dq : string := String dquote "".
Definition bs : string := String backslash "".
Definition nl : string := String "010"%char "".

(** [s.replace(/\n/g, rep)], for a replacement text without [$]. *)
Fixpoint replace_newlines (rep : string) (s : string) : string :=
  match s with
  | "" => ""
  | String c r =>
      (if Ascii.eqb c "010" then rep else String c "") ++ replace_newlines rep r
  end.

(** Does [needle] occur in [s]? *)
Fixpoint contains (needle s : string) : bool :=
  String.prefix needle s
  || match s with
     | "" => false
     | String _ r => contains needle r
     end.

(** Number::toString on a safe integer: its decimal digits, after a minus
    when it is negative. *)
Definition Number_toString (n : number) : string :=
  DecimalString.NilZero.string_of_int (Z.to_int (integer n)).

(** *** JSON.stringify *)

Definition hex_digit (n : N) : ascii :=
  (if n <? 10 then ascii_of_N (48 + n) else ascii_of_N (87 + n))%N.

(** QuoteJSONString, one code unit: the two-character escapes, [\u00xx]
    for the other control characters, every other code unit as it is. *)
Definition escape_code_unit (c : ascii) : string :=
  let n := N_of_ascii c in
  (if n =? 8 then bs ++ "b"
   else if n =? 9 then bs ++ "t"
   else if n =? 10 then bs ++ "n"
   else if n =? 12 then bs ++ "f"
   else if n =? 13 then bs ++ "r"
   else if n =? 34 then bs ++ dq
   else if n =? 92 then bs ++ bs
   else if n <? 32 then
     bs ++ "u00" ++ String (hex_digit (n / 16)) (String (hex_digit (n mod 16)) "")
   else String c "")%N.

Fixpoint escape_string (s : string) : string :=
  match s with
  | "" => ""
  | String c r => escape_code_unit c ++ escape_string r
  end.

Definition QuoteJSONString (s : string) : string :=
  dq ++ escape_string s ++ dq.

(** [JSON.stringify(v)] without replacer or indentation; [None] is the
    [undefined] it returns for [undefined].  Inside an array [undefined]
    is written [null]; a property whose value is [undefined] is left out. *)
Fixpoint JSON_stringify (v : value) : option string :=
  match v with
  | VUndefined => None
  | VNull => Some "null"
  | VBool b => Some (if b then "true" else "false")
  | VNumber n => Some (Number_toString n)
  | VStr s => Some (QuoteJSONString s)
  | VArr l =>
      Some ("[" ++ String.concat ","
              ((fix elems (l : list value) : list string :=
                  match l with
                  | [] => []
                  | x :: r =>
                      match JSON_stringify x with
                      | Some t => t
                      | None => "null"
                      end :: elems r
                  end) l) ++ "]")
  | VObj l =>
      Some ("{" ++ String.concat ","
              ((fix members (l : list (string * value)) : list string :=
                  match l with
                  | [] => []
                  | (k, x) :: r =>
                      match JSON_stringify x with
                      | Some t => (QuoteJSONString k ++ ":" ++ t) :: members r
                      | None => members r
                      end
                  end) l) ++ "}")
  end.

(** A value interpolated in a template literal after [JSON.stringify]. *)
Definition interpolate (o : option string) : string :=
  match o with
  | Some t => t
  | None => "undefined"
  end.

(** ToString, for a value interpolated in a template literal. *)
Fixpoint ToString (v : value) : string :=
  match v with
  | VUndefined => "undefined"
  | VNull => "null"
  | VBool b => if b then "true" else "false"
  | VNumber n => Number_toString n
  | VStr s => s
  | VArr l =>
      String.concat ","
        ((fix elems (l : list value) : list string :=
            match l with
            | [] => []
            | x :: r =>
                match x with
                | VUndefined | VNull => ""
                | _ => ToString x
                end :: elems r
            end) l)
  | VObj _ => "[object Object]"
  end.

(** ToBoolean. *)
Definition truthy (v : value) : bool :=
  match v with
  | VUndefined | VNull => false
  | VBool b => b
  | VNumber n => negb (integer n =? 0)
  | VStr s => negb (String.eqb s "")
  | VArr _ | VObj _ => true
  end.

(** *** The order of the properties of an object *)

(** The array index a property key writes, when it writes one: the
    decimal digits of an integer up to 2^32 - 2, without a leading zero. *)
Definition array_index (k : string) : option N :=
  match k, DecimalString.NilEmpty.uint_of_string k with
  | String c r, Some u =>
      if Ascii.eqb c "0" && negb (String.eqb r "") then None
      else if (N.of_uint u <? 4294967295)%N then Some (N.of_uint u)
      else None
  | _, _ => None
  end.

(** OrdinaryOwnPropertyKeys: the keys that are array indices come first,
    in ascending order; the other keys follow in the order of their
    creation.  [enumerated_before k k'] tells that [k] is listed before
    [k'] whenever it is created. *)
Definition enumerated_before (k k' : string) : bool :=
  match array_index k, array_index k' with
  | Some n, Some n' => (n <? n')%N
  | Some _, None => true
  | None, _ => false
  end.

(** A list of keys in enumeration order. *)
Fixpoint in_order (l : list string) : bool :=
  match l with
  | [] => true
  | k :: r => forallb (fun k' => negb (enumerated_before k' k)) r && in_order r
  end.

Fixpoint distinct (l : list string) : bool :=
  match l with
  | [] => true
  | k :: r => negb (existsb (String.eqb k) r) && distinct r
  end.

(** The values that are plain data: no [undefined] anywhere, and objects
    as JavaScript holds them, their keys distinct and in enumeration
    order. *)
Fixpoint json_data (v : value) : bool :=
  match v with
  | VUndefined => false
  | VNull | VBool _ | VNumber _ | VStr _ => true
  | VArr l => forallb json_data l
  | VObj l =>
      distinct (map fst l) && in_order (map fst l)
      && forallb (fun kv => json_data (snd kv)) l
  end.

(** The number of values in a value. *)
Fixpoint size (v : value) : nat :=
  match v with
  | VArr l => S (list_sum (map size l))
  | VObj l => S (list_sum (map (fun kv => size (snd kv)) l))
  | _ => 1
  end.

(** *** JSON.parse *)

(** JSON white space: space, tab, line feed, carriage return. *)
Definition is_ws (c : ascii) : bool :=
  let n := N_of_ascii c in
  ((n =? 32) || (n =? 9) || (n =? 10) || (n =? 13))%N.

Fixpoint skip_ws (s : string) : string :=
  match s with
  | "" => ""
  | String c r => if is_ws c then skip_ws r else s
  end.

Definition is_digit (c : ascii) : bool :=
  let n := N_of_ascii c in
  ((48 <=? n) && (n <=? 57))%N.

Definition hex_value (c : ascii) : option N :=
  let n := N_of_ascii c in
  (if (48 <=? n) && (n <=? 57) then Some (n - 48)
   else if (97 <=? n) && (n <=? 102) then Some (n - 87)
   else if (65 <=? n) && (n <=? 70) then Some (n - 55)
   else None)%N.

(** The code unit written [\uh1h2h3h4]: a SyntaxError when a digit is not
    hexadecimal; a code unit above 255 is one the strings of the model do
    not hold. *)
Definition unicode_escape (h1 h2 h3 h4 : ascii) : result ascii :=
  match hex_value h1, hex_value h2, hex_value h3, hex_value h4 with
  | Some a, Some b, Some c, Some d =>
      let n := (((a * 16 + b) * 16 + c) * 16 + d)%N in
      if (n <? 256)%N then Ok (ascii_of_N n) else Unmodelled
  | _, _, _, _ => Throw SyntaxError
  end.

Definition cons_char (c : ascii) (o : result (string * string))
  : result (string * string) :=
  match o with
  | Ok (t, rest) => Ok (String c t, rest)
  | Throw e => Throw e
  | Unmodelled => Unmodelled
  end.

(** A string literal after its opening quote: the text it denotes and
    what follows the closing quote. *)
Fixpoint parse_string_body (s : string) : result (string * string) :=
  match s with
  | "" => Throw SyntaxError
  | String c r =>
      if Ascii.eqb c dquote then Ok ("", r)
      else if Ascii.eqb c backslash then
        match r with
        | "" => Throw SyntaxError
        | String e r' =>
            if Ascii.eqb e dquote then cons_char dquote (parse_string_body r')
            else if Ascii.eqb e backslash then cons_char backslash (parse_string_body r')
            else if Ascii.eqb e "/" then cons_char "/" (parse_string_body r')
            else if Ascii.eqb e "b" then cons_char "008" (parse_string_body r')
            else if Ascii.eqb e "f" then cons_char "012" (parse_string_body r')
            else if Ascii.eqb e "n" then cons_char "010" (parse_string_body r')
            else if Ascii.eqb e "r" then cons_char "013" (parse_string_body r')
            else if Ascii.eqb e "t" then cons_char "009" (parse_string_body r')
            else if Ascii.eqb e "u" then
              match r' with
              | String h1 (String h2 (String h3 (String h4 r''))) =>
                  match unicode_escape h1 h2 h3 h4 with
                  | Ok u => cons_char u (parse_string_body r'')
                  | Throw x => Throw x
                  | Unmodelled => Unmodelled
                  end
              | _ => Throw SyntaxError
              end
            else Throw SyntaxError
        end
      else if (N_of_ascii c <? 32)%N then Throw SyntaxError
      else cons_char c (parse_string_body r)
  end.

(** The longest prefix of digits, and the rest. *)
Fixpoint span_digits (s : string) : string * string :=
  match s with
  | "" => ("", "")
  | String c r =>
      if is_digit c then let (ds, rest) := span_digits r in (String c ds, rest)
      else ("", s)
  end.

Definition starts_fraction_or_exponent (s : string) : bool :=
  match s with
  | String c _ => Ascii.eqb c "." || Ascii.eqb c "e" || Ascii.eqb c "E"
  | "" => false
  end.

(** The integer at the head of a number literal: an optional minus and
    digits without a leading zero, a SyntaxError otherwise.  A literal
    that goes on with a fraction or an exponent denotes a number the
    model does not have. *)
Definition parse_number (s : string) : result (Z * string) :=
  let (negative, s1) :=
    match s with
    | String c r => if Ascii.eqb c "-" then (true, r) else (false, s)
    | "" => (false, s)
    end in
  let (ds, rest) := span_digits s1 in
  match ds with
  | "" => Throw SyntaxError
  | String d ds' =>
      if Ascii.eqb d "0" && negb (String.eqb ds' "") then Throw SyntaxError
      else if starts_fraction_or_exponent rest then Unmodelled
      else
        match DecimalString.NilEmpty.uint_of_string ds with
        | Some u => Ok (if negative then - Z.of_uint u else Z.of_uint u, rest)
        | None => Unmodelled
        end
  end.

(** [s] without the prefix [p], when it starts with it. *)
Fixpoint strip_prefix (p s : string) : option string :=
  match p with
  | "" => Some s
  | String a p' =>
      match s with
      | String b s' => if Ascii.eqb a b then strip_prefix p' s' else None
      | "" => None
      end
  end.

(** A new key takes its place in the enumeration order. *)
Fixpoint insert_prop (k : string) (v : value) (l : list (string * value))
  : list (string * value) :=
  match l with
  | [] => [(k, v)]
  | (k', v') :: r =>
      if enumerated_before k k' then (k, v) :: l
      else (k', v') :: insert_prop k v r
  end.

(** A key that is there keeps its place and takes the new value. *)
Fixpoint replace_prop (k : string) (v : value) (l : list (string * value))
  : list (string * value) :=
  match l with
  | [] => []
  | (k', v') :: r =>
      if String.eqb k' k then (k', v) :: r else (k', v') :: replace_prop k v r
  end.

(** CreateDataProperty, while an object is built. *)
Definition set_prop (k : string) (v : value) (l : list (string * value))
  : list (string * value) :=
  match lookup k l with
  | Some _ => replace_prop k v l
  | None => insert_prop k v l
  end.

Section Loops.
(** The parser for one value, at the nesting depth below. *)
Variable parse : string -> result (value * string).

(** The elements of an array after its bracket, [acc] reversed. *)
Fixpoint parse_elements (n : nat) (s : string) (acc : list value)
  : result (value * string) :=
  match n with
  | O => Unmodelled
  | S n' =>
      match parse s with
      | Ok (v, r) =>
          match skip_ws r with
          | String c r' =>
              if Ascii.eqb c "," then parse_elements n' r' (v :: acc)
              else if Ascii.eqb c "]" then Ok (VArr (List.rev (v :: acc)), r')
              else Throw SyntaxError
          | "" => Throw SyntaxError
          end
      | Throw x => Throw x
      | Unmodelled => Unmodelled
      end
  end.

(** The members of an object after its brace. *)
Fixpoint parse_members (n : nat) (s : string) (acc : list (string * value))
  : result (value * string) :=
  match n with
  | O => Unmodelled
  | S n' =>
      match skip_ws s with
      | String q r0 =>
          if Ascii.eqb q dquote then
            match parse_string_body r0 with
            | Ok (k, r1) =>
                match skip_ws r1 with
                | String c r2 =>
                    if Ascii.eqb c ":" then
                      match parse r2 with
                      | Ok (v, r3) =>
                          match skip_ws r3 with
                          | String d r4 =>
                              if Ascii.eqb d "," then
                                parse_members n' r4 (set_prop k v acc)
                              else if Ascii.eqb d "}" then
                                Ok (VObj (set_prop k v acc), r4)
                              else Throw SyntaxError
                          | "" => Throw SyntaxError
                          end
                      | Throw x => Throw x
                      | Unmodelled => Unmodelled
                      end
                    else Throw SyntaxError
                | "" => Throw SyntaxError
                end
            | Throw x => Throw x
            | Unmodelled => Unmodelled
            end
          else Throw SyntaxError
      | "" => Throw SyntaxError
      end
  end.
End Loops.

(** One JSON value at the head of [s], white space before it skipped, and
    the text after it.  [fuel] bounds the nesting depth and the number of
    elements or members at one level; a run that uses it up says nothing. *)
Fixpoint parse_value (fuel : nat) (s : string) : result (value * string) :=
  match fuel with
  | O => Unmodelled
  | S fuel' =>
      match skip_ws s with
      | "" => Throw SyntaxError
      | String c r =>
          if Ascii.eqb c "{" then
            match skip_ws r with
            | String c' r' =>
                if Ascii.eqb c' "}" then Ok (VObj [], r')
                else parse_members (parse_value fuel') fuel' r []
            | "" => Throw SyntaxError
            end
          else if Ascii.eqb c "[" then
            match skip_ws r with
            | String c' r' =>
                if Ascii.eqb c' "]" then Ok (VArr [], r')
                else parse_elements (parse_value fuel') fuel' r []
            | "" => Throw SyntaxError
            end
          else if Ascii.eqb c dquote then
            match parse_string_body r with
            | Ok (t, r') => Ok (VStr t, r')
            | Throw x => Throw x
            | Unmodelled => Unmodelled
            end
          else
            match strip_prefix "true" (String c r) with
            | Some r' => Ok (VBool true, r')
            | None =>
            match strip_prefix "false" (String c r) with
            | Some r' => Ok (VBool false, r')
            | None =>
            match strip_prefix "null" (String c r) with
            | Some r' => Ok (VNull, r')
            | None =>
            match parse_number (String c r) with
            | Ok (z, r') =>
                match to_number z with
                | Some n => Ok (VNumber n, r')
                | None => Unmodelled
                end
            | Throw x => Throw x
            | Unmodelled => Unmodelled
            end end end end
      end
  end.

(** [JSON.parse(text)]: one value, nothing but white space after it; a
    SyntaxError otherwise.  The parser stops with [Unmodelled] at the
    first number or code unit that the model does not have.  Every nested
    value and every element consumes a character, so the length of the
    text is fuel enough. *)
Definition JSON_parse (text : string) : result value :=
  match parse_value (S (String.length text)) text with
  | Ok (v, rest) =>
      match skip_ws rest with
      | "" => Ok v
      | String _ _ => Throw SyntaxError
      end
  | Throw x => Throw x
  | Unmodelled => Unmodelled
  end.

(** *** Reading a serialization back *)

(** What may follow a number: not a digit, nor the start of a fraction or
    of an exponent. *)
Definition delimited (rest : string) : bool :=
  match rest with
  | "" => true
  | String c _ => negb (is_digit c) && negb (starts_fraction_or_exponent rest)
  end.

(** A numeral as [Number_toString] writes it: the single digit zero, or
    digits that start with a digit other than zero. *)
Definition canonical (d : Decimal.uint) : Prop :=
  match d with
  | Decimal.Nil => False
  | Decimal.D0 Decimal.Nil => True
  | Decimal.D0 _ => False
  | _ => True
  end.

(** The characters a serialized value can start with. *)
Definition value_start (c : ascii) : bool :=
  is_digit c || Ascii.eqb c "-" || Ascii.eqb c dquote || Ascii.eqb c "["
  || Ascii.eqb c "{" || Ascii.eqb c "t" || Ascii.eqb c "f" || Ascii.eqb c "n".

(** The text written for an element of an array. *)
Definition elem_text (x : value) : string :=
  match JSON_stringify x with
  | Some t => t
  | None => "null"
  end.

(** The text written for a member of an object whose value is data. *)
Definition member_text (kv : string * value) : string :=
  QuoteJSONString (fst kv) ++ ":" ++ elem_text (snd kv).

(** The texts written for the members of an object, those whose value is
    [undefined] left out. *)
Fixpoint member_texts (l : list (string * value)) : list string :=
  match l with
  | [] => []
  | (k, x) :: r =>
      match JSON_stringify x with
      | Some t => (QuoteJSONString k ++ ":" ++ t) :: member_texts r
      | None => member_texts r
      end
  end.

(** What the induction gives for a value already dealt with. *)
Definition reads_back (f : nat) (v : value) : Prop :=
  json_data v = true
  /\ forall rest, delimited rest = true ->
       parse_value f (elem_text v ++ rest) = Ok (v, rest).

(** A parser that consumes: what it leaves is shorter than what it got. *)
Definition consumes (parse : string -> result (value * string)) : Prop :=
  forall s v r,
    parse s = Ok (v, r) -> (String.length r < String.length s)%nat.

(** A parser that returns plain data. *)
Definition gives_data (parse : string -> result (value * string)) : Prop :=
  forall s v r, parse s = Ok (v, r) -> json_data v = true.

(** *** Tests on the code units of a text *)

(** Every code unit of [s] passes [test]. *)
Fixpoint all_chars (test : ascii -> bool) (s : string) : bool :=
  match s with
  | "" => true
  | String c r => test c && all_chars test r
  end.

(** Not a control character. *)
Definition printable (c : ascii) : bool := (32 <=? N_of_ascii c)%N.

Definition not_line_feed (c : ascii) : bool := negb (Ascii.eqb c "010").

End JS.

Import JS.
Local Open Scope js_scope.

(** ** The page assembler and the rendering middleware *)

Module Render.

(** What [Helmet.rewind()] returns, each fragment after its [toString()]. *)
Record head : Type := {
  base : string;
  title : string;
  meta : string;
  link : string;
  script : string
}.

(** The variables of [process.env] that the file reads. *)
Record environment : Type := {
  NODE_ENV : option string;
  webpackAssets : option string;
  webpackChunkAssets : option string
}.

(** The collaborators the middleware can invoke, for the trace. *)
Inductive call : Type :=
| Call_configureStore
| Call_fetchComponentData
| Call_renderToString
| Call_Helmet_rewind.

(** The state of the Node process that the rendering code reads or writes:
    the environment; the singleton of react-helmet; [global.navigator];
    the trace of collaborator calls.  The singleton keeps the Helmet
    instances mounted since the last [rewind], by their properties and in
    mounting order ([helmet_mounted]); [helmet_reduce] is the library's
    reduction of such instances to head fragments, and [helmet_blank] what
    it hands over when none is mounted. *)
Record process : Type := {
  env : environment;
  helmet_mounted : list value;
  helmet_reduce : list value -> head;
  helmet_blank : head;
  navigator : value;
  trace : list call
}.

(** What the singleton has recorded: the fragments reduced from all the
    instances mounted since the last [rewind], when there are any. *)
Definition helmet_recorded (p : process) : option head :=
  match helmet_mounted p with
  | [] => None
  | l => Some (helmet_reduce p l)
  end.

Definition production (e : environment) : bool :=
  match NODE_ENV e with
  | Some s => String.eqb s "production"
  | None => false
  end.

(** [Helmet.rewind()]: hands over the recorded fragments and resets the
    singleton. *)
Definition Helmet_rewind (p : process) : head * process :=
  (match helmet_recorded p with
   | Some h => h
   | None => helmet_blank p
   end,
   {| env := env p;
      helmet_mounted := [];
      helmet_reduce := helmet_reduce p;
      helmet_blank := helmet_blank p;
      navigator := navigator p;
      trace := (trace p ++ [Call_Helmet_rewind])%list |}).

(** [process.env.X && JSON.parse(process.env.X)] *)
Definition load_manifest (x : option string) : result value :=
  match x with
  | None => Ok VUndefined
  | Some s => if String.eqb s "" then Ok (VStr "") else JSON_parse s
  end.

(** The inline script up to the snapshot: the global-state binding. *)
Definition state_binding : string :=
  nl ++ "          window.__INITIAL_STATE__ = ".

(** The inline script after the snapshot. *)
Definition after_state (prod : bool) (chunks : option string) : string :=
  ";" ++ nl
  ++ "          "
  ++ (if prod then
        "//<![CDATA[" ++ nl
        ++ "          window.webpackManifest = " ++ interpolate chunks ++ ";" ++ nl
        ++ "          //]]>"
      else "")
  ++ nl ++ "        ".

(** The text of the inline script, between [<script>] and [</script>]. *)
Definition inline_script (prod : bool) (state chunks : option string) : string :=
  state_binding ++ interpolate state ++ after_state prod chunks.

(** The document up to the inline script's opening tag. *)
Definition page_top (h : head) (stylesheet html : string) : string :=
  nl ++ "    <!doctype html>" ++ nl
  ++ "    <html>" ++ nl
  ++ "      <head>" ++ nl
  ++ "        " ++ base h ++ nl
  ++ "        " ++ title h ++ nl
  ++ "        " ++ meta h ++ nl
  ++ "        " ++ link h ++ nl
  ++ "        " ++ script h ++ nl
  ++ nl
  ++ "        " ++ stylesheet ++ nl
  ++ "        <link href='https://fonts.googleapis.com/css?family=Lato:400,300,700' rel='stylesheet' type='text/css'/>" ++ nl
  ++ "        <link rel=" ++ dq ++ "shortcut icon" ++ dq ++ " href=" ++ dq
  ++ "http://res.cloudinary.com/hashnode/image/upload/v1455629445/static_imgs/mern/mern-favicon-circle-fill.png"
  ++ dq ++ " type=" ++ dq ++ "image/png" ++ dq ++ " />" ++ nl
  ++ "      </head>" ++ nl
  ++ "      <body>" ++ nl
  ++ "        <div id=" ++ dq ++ "root" ++ dq ++ ">" ++ html ++ "</div>" ++ nl
  ++ "        <script>".

(** The document from the inline script's closing tag on. *)
Definition page_bottom (vendor app : string) : string :=
  "</script>" ++ nl
  ++ "        <script src='" ++ vendor ++ "'></script>" ++ nl
  ++ "        <script src='" ++ app ++ "'></script>" ++ nl
  ++ "      </body>" ++ nl
  ++ "    </html>" ++ nl
  ++ "  ".

(** The template literal of [renderFullPage], once the head fragments are
    known: the manifests are parsed first, then the interpolations are
    evaluated from top to bottom. *)
Definition template (e : environment) (h : head) (html : string)
    (initialState : value) : result string :=
  assetsManifest <- load_manifest (webpackAssets e) ;;
  chunkManifest <- load_manifest (webpackChunkAssets e) ;;
  stylesheet <-
    (if production e then
       css <- get assetsManifest "/app.css" ;;
       Ok ("<link rel='stylesheet' href='" ++ ToString css ++ "' />")
     else Ok "") ;;
  let body :=
    inline_script (production e) (JSON_stringify initialState)
      (JSON_stringify chunkManifest) in
  vendor <-
    (if production e then
       v <- get assetsManifest "/vendor.js" ;; Ok (ToString v)
     else Ok "/vendor.js") ;;
  app <-
    (if production e then
       v <- get assetsManifest "/app.js" ;; Ok (ToString v)
     else Ok "/app.js") ;;
  Ok (page_top h stylesheet html ++ body ++ page_bottom vendor app).

(** The parts of the template that depend on the environment alone. *)
Record assets : Type := {
  stylesheet : string;
  chunks : option string;
  vendor : string;
  app : string
}.

Definition resolve_assets (e : environment) : result assets :=
  assetsManifest <- load_manifest (webpackAssets e) ;;
  chunkManifest <- load_manifest (webpackChunkAssets e) ;;
  if production e then
    css <- get assetsManifest "/app.css" ;;
    v <- get assetsManifest "/vendor.js" ;;
    a <- get assetsManifest "/app.js" ;;
    Ok {| stylesheet := "<link rel='stylesheet' href='" ++ ToString css ++ "' />";
          chunks := JSON_stringify chunkManifest;
          vendor := ToString v;
          app := ToString a |}
  else
    Ok {| stylesheet := "";
          chunks := JSON_stringify chunkManifest;
          vendor := "/vendor.js";
          app := "/app.js" |}.

(** The document around the snapshot, for given head fragments, markup
    and assets. *)
Definition before_snapshot (h : head) (a : assets) (html : string) : string :=
  page_top h (stylesheet a) html ++ state_binding.

Definition after_snapshot (prod : bool) (a : assets) : string :=
  after_state prod (chunks a) ++ page_bottom (vendor a) (app a).

(** [renderFullPage(html, initialState)] *)
Definition renderFullPage (html : string) (initialState : value) (p : process)
  : result string * process :=
  let (h, p') := Helmet_rewind p in
  (template (env p') h html initialState, p').

(** The trace shown with the error page outside production. *)
Definition errTrace (e : environment) (err : value) : result string :=
  let softTab := "&#32;&#32;&#32;&#32;" in
  if negb (production e) then
    stack <- get err "stack" ;;
    match stack with
    | VStr s =>
        Ok (":<br><br><pre style=" ++ dq ++ "color:red" ++ dq ++ ">" ++ softTab
            ++ replace_newlines ("<br>" ++ softTab) s ++ "</pre>")
    | _ => Throw TypeError
    end
  else Ok "".

(** [renderError(err)] *)
Definition renderError (err : value) (p : process) : result string * process :=
  match errTrace (env p) err with
  | Ok t => renderFullPage ("Server Error" ++ t) (VObj []) p
  | Throw e => (Throw e, p)
  | Unmodelled => (Unmodelled, p)
  end.

(** What the router reports for a redirect route. *)
Record location : Type := {
  pathname : string;
  search : string
}.

(** The part of the request that the middleware reads. *)
Record request : Type := {
  url : string;
  user_agent : value
}.

(** What the middleware does with the request: a response sent with
    [res.status(..).end(..)], a redirect, or the request handed to the
    next handler of the chain, with the error when there is one. *)
Inductive response : Type :=
| Sent (status : Z) (content_type : option string) (body : string)
| Redirect (status : Z) (target : string)
| Next (error : option exn).

(** What a render that returns leaves behind: the markup and the state
    of the store after the render. *)
Record rendered : Type := {
  markup : string;
  store_after : value
}.

(** A run of [renderToString]: the Helmet instances it mounts on the way,
    by their properties and in mounting order, and how it ends, with the
    markup or with an exception. *)
Record rendering : Type := {
  mounted : list value;
  outcome : result rendered
}.

(** The properties of a matched route handed over by the router. *)
Record renderProps (C P : Type) : Type := {
  components : C;
  params : P
}.
Arguments components {C P} r.
Arguments params {C P} r.

Definition log (c : call) (p : process) : process :=
  {| env := env p;
     helmet_mounted := helmet_mounted p;
     helmet_reduce := helmet_reduce p;
     helmet_blank := helmet_blank p;
     navigator := navigator p;
     trace := (trace p ++ [c])%list |}.

Definition set_navigator (v : value) (p : process) : process :=
  {| env := env p;
     helmet_mounted := helmet_mounted p;
     helmet_reduce := helmet_reduce p;
     helmet_blank := helmet_blank p;
     navigator := v;
     trace := trace p |}.

(** What a render does to the singleton: the instances it mounts join
    those that are still there. *)
Definition mount (l : list value) (p : process) : process :=
  {| env := env p;
     helmet_mounted := (helmet_mounted p ++ l)%list;
     helmet_reduce := helmet_reduce p;
     helmet_blank := helmet_blank p;
     navigator := navigator p;
     trace := trace p |}.

(** The head fragments [Helmet.rewind()] hands over once a render has
    mounted the instances [l] in the process [p]. *)
Definition head_for (l : list value) (p : process) : head :=
  match (helmet_mounted p ++ l)%list with
  | [] => helmet_blank p
  | all => helmet_reduce p all
  end.

Section Middleware.
(** The collaborators, outside this file: the matched components and
    parameters are opaque; [match_] is react-router's [match] on the
    route table, by what it passes to its callback; [configureStore] is
    the state of a fresh store; [fetchComponentData] gives the state of
    the store once every data requirement has been fetched, or the
    rejection of the promise; [renderToString] renders the component tree
    against a store state and a user agent, and mounts Helmet instances
    on the way, also when it ends with an exception. *)
Variables C P : Type.
Variable match_ : string -> value * option location * option (renderProps C P).
Variable configureStore : value.
Variable fetchComponentData : value -> C -> P -> result value.
Variable renderToString : value -> value -> renderProps C P -> rendering.

(** The callback passed to [match].  A rejected promise and an exception
    thrown by the render or by the page assembly all reach the [catch]
    handler, that is [next(error)]. *)
Definition on_match (req : request) (err : value)
    (redirectLocation : option location)
    (props : option (renderProps C P)) (p : process)
  : result response * process :=
  if truthy err then
    match renderError err p with
    | (Ok doc, p') => (Ok (Sent 500 None doc), p')
    | (Throw e, p') => (Throw e, p')
    | (Unmodelled, p') => (Unmodelled, p')
    end
  else
    match redirectLocation with
    | Some loc => (Ok (Redirect 302 (pathname loc ++ search loc)), p)
    | None =>
        match props with
        | None => (Ok (Next None), p)
        | Some rp =>
            let p1 := set_navigator (VObj [("userAgent", user_agent req)]) p in
            let p2 := log Call_configureStore p1 in
            let p3 := log Call_fetchComponentData p2 in
            match fetchComponentData configureStore (components rp) (params rp) with
            | Throw e => (Ok (Next (Some e)), p3)
            | Unmodelled => (Unmodelled, p3)
            | Ok fetched =>
                let p4 := log Call_renderToString p3 in
                let run := renderToString fetched (user_agent req) rp in
                let p5 := mount (mounted run) p4 in
                match outcome run with
                | Throw e => (Ok (Next (Some e)), p5)
                | Unmodelled => (Unmodelled, p5)
                | Ok r =>
                    let finalState := store_after r in
                    match renderFullPage (markup r) finalState p5 with
                    | (Ok doc, p6) => (Ok (Sent 200 (Some "text/html") doc), p6)
                    | (Throw e, p6) => (Ok (Next (Some e)), p6)
                    | (Unmodelled, p6) => (Unmodelled, p6)
                    end
                end
            end
        end
    end.

(** The middleware registered with [app.use]. *)
Definition ssr (req : request) (p : process) : result response * process :=
  let '(err, redirectLocation, props) := match_ (url req) in
  on_match req err redirectLocation props p.
End Middleware.

(** The assembler as a function of the markup, the snapshot and the
    environment alone: two processes with the same environment get the
    same document. *)
Definition pure_in_its_inputs : Prop :=
  forall (html : string) (state : value) (p1 p2 : process),
    env p1 = env p2 ->
    fst (renderFullPage html state p1) = fst (renderFullPage html state p2).

(** The serialized snapshot holds no closing tag of a script. *)
Definition snapshot_cannot_close_script (state : value) : Prop :=
  contains "</script>" (interpolate (JSON_stringify state)) = false.

(** A response with status 500 whose document binds the global state to
    an empty object. *)
Definition answers_500_with_empty_state (out : result response * process)
  : Prop :=
  exists ct doc,
    fst out = Ok (Sent 500 ct doc)
    /\ contains "window.__INITIAL_STATE__ = {};" doc = true.


(** *** Sample processes, requests and collaborators *)

Definition development : environment :=
  {| NODE_ENV := Some "development";
     webpackAssets := None;
     webpackChunkAssets := None |}.

Definition no_fragments : head :=
  {| base := ""; title := ""; meta := ""; link := ""; script := "" |}.

Definition titled : head :=
  {| base := ""; title := "<title>Posts</title>"; meta := ""; link := "";
     script := "" |}.

(** A reduction of Helmet instances for the samples: the title of the
    instance mounted last, no other fragment. *)
Definition last_title (l : list value) : head :=
  {| base := "";
     title :=
       match get (last l VUndefined) "title" with
       | Ok (VStr t) => "<title>" ++ t ++ "</title>"
       | _ => ""
       end;
     meta := ""; link := ""; script := "" |}.

(** [<Helmet title="Posts" />] *)
Definition posts_helmet : value := VObj [("title", VStr "Posts")].

(** A process that has rendered nothing yet. *)
Definition idle : process :=
  {| env := development;
     helmet_mounted := [];
     helmet_reduce := last_title;
     helmet_blank := no_fragments;
     navigator := VUndefined;
     trace := [] |}.

(** The same process once a render has mounted a Helmet with a title. *)
Definition rendered_once : process :=
  {| env := development;
     helmet_mounted := [posts_helmet];
     helmet_reduce := last_title;
     helmet_blank := no_fragments;
     navigator := VUndefined;
     trace := [] |}.

Definition get_post_42 : request :=
  {| url := "/posts/42"; user_agent := VStr "Mozilla/5.0" |}.

Definition post_route : renderProps unit unit :=
  {| components := tt; params := tt |}.

(** [{posts: {42: {id: 42, title: 'X'}}}] *)
Definition post_42_state : value :=
  VObj [("posts", VObj [("42", VObj [("id", VNum 42); ("title", VStr "X")])])].

(** A snapshot with a title that closes the script. *)
Definition hostile_state : value :=
  VObj [("title", VStr "</script><script>alert(1)</script>")].

Definition fetch_ok (store : value) (c p : unit) : result value :=
  Ok post_42_state.

Definition fetch_rejected (store : value) (c p : unit) : result value :=
  Throw (Rejected (VStr "ECONNREFUSED")).

Definition render_ok (state userAgent : value) (rp : renderProps unit unit)
  : rendering :=
  {| mounted := [posts_helmet];
     outcome := Ok {| markup := "<h1>X</h1>"; store_after := state |} |}.



Definition match_redirect (path : string)
  : value * option location * option (renderProps unit unit) :=
  (VNull, Some {| pathname := "/posts"; search := "?page=2" |}, None).

(** A production environment with both manifests. *)
Definition production_env : environment :=
  {| NODE_ENV := Some "production";
     webpackAssets :=
       Some (interpolate
               (JSON_stringify
                  (VObj [("/app.css", VStr "/app.1a.css");
                         ("/vendor.js", VStr "/vendor.2b.js");
                         ("/app.js", VStr "/app.3c.js")])));
     webpackChunkAssets :=
       Some (interpolate (JSON_stringify (VObj [("0", VStr "0.4d.js")]))) |}.


(** A production environment that lacks the manifests. *)
Definition bare_production : environment :=
  {| NODE_ENV := Some "production";
     webpackAssets := None;
     webpackChunkAssets := None |}.

Definition with_env (e : environment) (p : process) : process :=
  {| env := e;
     helmet_mounted := helmet_mounted p;
     helmet_reduce := helmet_reduce p;
     helmet_blank := helmet_blank p;
     navigator := navigator p;
     trace := trace p |}.

Definition match_nothing (path : string)
  : value * option location * option (renderProps unit unit) :=
  (VNull, None, None).

(** A render that mounts a Helmet and then throws. *)
Definition render_throws (state userAgent : value) (rp : renderProps unit unit)
  : rendering :=
  {| mounted := [VObj [("title", VStr "Draft")]];
     outcome := Throw (Rejected (VStr "Invariant Violation")) |}.

(** [new Error('no route')], by the two properties the file can read. *)
Definition route_error : value :=
  VObj [("message", VStr "no route");
        ("stack", VStr ("Error: no route" ++ nl ++ "    at match"))].

End Render.

(** ** The socket.io connection list and the event relay *)

Module Sockets.

(** A socket, by its identity ([socket.id]). *)
Definition socket : Type := string.

(** What [emit] sends: the event name and its arguments. *)
Record packet : Type := {
  event : string;
  args : list value
}.

(** [clients] is the array of the file; [sockets] is the set of connected
    sockets socket.io keeps for the default namespace ([io.sockets]), in
    connection order; [outbox] lists what has been emitted, to whom. *)
Record server : Type := {
  clients : list socket;
  sockets : list socket;
  outbox : list (socket * packet)
}.

Definition set_clients (l : list socket) (st : server) : server :=
  {| clients := l; sockets := sockets st; outbox := outbox st |}.

(** [io.sockets.emit(event, ...args)]: one packet to every connected
    socket of the namespace. *)
Definition io_sockets_emit (pk : packet) (st : server) : server :=
  {| clients := clients st;
     sockets := sockets st;
     outbox := (outbox st ++ map (fun c => (c, pk)) (sockets st))%list |}.

(** [io.on('connection', ...)], the body run for a new socket. *)
Definition on_connection (s : socket) (st : server) : server :=
  set_clients (Array_push (clients st) s) st.

(** [socket.on('disconnect', ...)] *)
Definition on_disconnect (s : socket) (st : server) : server :=
  let index := Array_indexOf String.eqb (clients st) s in
  set_clients (Array_splice (clients st) index 1) st.

(** [socket.on('action', ...)]: three tests in a row, each reading
    [action.type]. *)
Definition on_action (s : socket) (action : value) (st : server) : result server :=
  t1 <- get action "type" ;;
  st1 <-
    (if strict_eq_str t1 "server/addPost" then
       post <- get action "post" ;;
       Ok (io_sockets_emit
             {| event := "action";
                args := [VObj [("type", VStr "ADD_POST"); ("post", post)]] |} st)
     else Ok st) ;;
  t2 <- get action "type" ;;
  st2 <-
    (if strict_eq_str t2 "server/updatePost" then
       post <- get action "post" ;;
       Ok (io_sockets_emit
             {| event := "action";
                args := [VObj [("type", VStr "UPDATE_POST"); ("post", post)]] |} st1)
     else Ok st1) ;;
  t3 <- get action "type" ;;
  (if strict_eq_str t3 "server/addComment" then
     comment <- get action "comment" ;;
     Ok (io_sockets_emit
           {| event := "action";
              args := [VObj [("type", VStr "ADD_COMMENT"); ("comment", comment)]] |} st2)
   else Ok st2).

(** [socket.on('refresh bloglist', ...)]: the handler takes no argument. *)
Definition on_refresh_bloglist (s : socket) (st : server) : server :=
  io_sockets_emit {| event := "refresh bloglist"; args := [] |} st.

(** [socket.on('refresh commentlist', ...)] *)
Definition on_refresh_commentlist (s : socket) (st : server) : server :=
  io_sockets_emit {| event := "refresh commentlist"; args := [] |} st.

(** What socket.io brings to the server: a new connection, the end of
    one, or an event sent by a connected client. *)
Inductive incoming : Type :=
| Connection (s : socket)
| Disconnect (s : socket)
| Event (s : socket) (pk : packet).

(** socket.io adds the socket to the namespace before it runs the
    connection handler, and takes it out before the disconnect handler; a
    client event runs the handler registered under its name with the
    arguments sent, and an event without handler is dropped. *)
Definition dispatch (i : incoming) (st : server) : result server :=
  match i with
  | Connection s =>
      Ok (on_connection s
            {| clients := clients st;
               sockets := (sockets st ++ [s])%list;
               outbox := outbox st |})
  | Disconnect s =>
      Ok (on_disconnect s
            {| clients := clients st;
               sockets := filter (fun c => negb (String.eqb c s)) (sockets st);
               outbox := outbox st |})
  | Event s pk =>
      if String.eqb (event pk) "action" then
        on_action s (match args pk with a :: _ => a | [] => VUndefined end) st
      else if String.eqb (event pk) "refresh bloglist" then
        Ok (on_refresh_bloglist s st)
      else if String.eqb (event pk) "refresh commentlist" then
        Ok (on_refresh_commentlist s st)
      else Ok st
  end.

(** What socket.io can bring in a given state: a connection is a new
    socket, a disconnection or an event comes from a connected one. *)
Definition admissible (i : incoming) (st : server) : Prop :=
  match i with
  | Connection s => ~ In s (sockets st) /\ ~ In s (clients st)
  | Disconnect s => In s (sockets st)
  | Event s _ => In s (sockets st)
  end.

Definition initial : server :=
  {| clients := []; sockets := []; outbox := [] |}.

(** The states the server goes through. *)
Inductive reachable : server -> Prop :=
| reachable_initial : reachable initial
| reachable_step i st st' :
    reachable st -> admissible i st -> dispatch i st = Ok st' -> reachable st'.

(** The packets emitted between two states, with their recipients. *)
Definition emitted (before after : server) : list (socket * packet) :=
  skipn (List.length (outbox before)) (outbox after).

(** The packets one socket receives between two states, in order. *)
Definition delivered_to (c : socket) (before after : server) : list packet :=
  map snd (filter (fun x => String.eqb (fst x) c) (emitted before after)).

(** The recipients of what the [action] handler emits for an event sent
    by [s]; none when the handler throws. *)
Definition targets (s : socket) (action : value) (st : server) : list socket :=
  match on_action s action st with
  | Ok st' => map fst (emitted st st')
  | Throw _ | Unmodelled => []
  end.

(** The three tests of the [action] handler as a table: the kind a client
    sends, the kind the server emits and the field that carries the
    payload. *)
Definition public_kind (k : string) : option (string * string) :=
  if String.eqb k "server/addPost" then Some ("ADD_POST", "post")
  else if String.eqb k "server/updatePost" then Some ("UPDATE_POST", "post")
  else if String.eqb k "server/addComment" then Some ("ADD_COMMENT", "comment")
  else None.

(** The packet emitted for a mutation event. *)
Definition translated (pub field : string) (payload : value) : packet :=
  {| event := "action";
     args := [VObj [("type", VStr pub); (field, payload)]] |}.

(** The kinds the [action] handler tests for. *)
Definition recognized : list value :=
  [VStr "server/addPost"; VStr "server/updatePost"; VStr "server/addComment"].

(** Relay to the others only: every other client of the list receives
    something and the sender receives nothing. *)
Definition relayed_to_others_only (st : server) (a : socket) (action : value)
  : Prop :=
  forall st', on_action a action st = Ok st' ->
    (forall c, In c (clients st) -> c <> a -> delivered_to c st st' <> [])
    /\ delivered_to a st st' = [].

(** An event whose kind is none of the recognized ones; an event whose
    kind cannot be read has none of them. *)
Definition unrecognized (action : value) : Prop :=
  forall t, get action "type" = Ok t -> ~ In t recognized.

(** The handler returns without an error and has emitted nothing. *)
Definition ignored_silently (st : server) (s : socket) (action : value)
  : Prop :=
  on_action s action st = Ok st.

(** An event sent by [s] is emitted again as it was received, name and
    arguments, to every connected socket. *)
Definition reemitted_verbatim (st : server) (s : socket) (pk : packet)
  : Prop :=
  exists st',
    dispatch (Event s pk) st = Ok st'
    /\ forall c, In c (sockets st) -> In (c, pk) (emitted st st').

(** A socket pushed and then taken out is no longer in the list. *)
Definition gone_after_disconnect (st : server) (h : socket) : Prop :=
  ~ In h (clients (on_disconnect h (on_connection h st))).

(** The sender is not among the recipients of its own event. *)
Definition origin_not_a_target (st : server) (h : socket) (action : value)
  : Prop :=
  ~ In h (targets h action st).

(** Taking out a socket that is not in the list changes nothing. *)
Definition absent_disconnect_is_noop (st : server) (h : socket) : Prop :=
  ~ In h (clients st) -> clients (on_disconnect h st) = clients st.

(** Three clients connected, nothing emitted yet. *)
Definition three_clients : server :=
  {| clients := ["A"; "B"; "C"];
     sockets := ["A"; "B"; "C"];
     outbox := [] |}.

(** [{type: 'server/addPost', post: {id: 7}}] *)
Definition add_post_7 : value :=
  VObj [("type", VStr "server/addPost"); ("post", VObj [("id", VNum 7)])].

(** The packets the handlers of the file can emit: one of the three
    translated mutation events, or one of the two refresh events without
    argument. *)
Definition emittable (pk : packet) : Prop :=
  (exists payload, pk = translated "ADD_POST" "post" payload)
  \/ (exists payload, pk = translated "UPDATE_POST" "post" payload)
  \/ (exists payload, pk = translated "ADD_COMMENT" "comment" payload)
  \/ pk = {| event := "refresh bloglist"; args := [] |}
  \/ pk = {| event := "refresh commentlist"; args := [] |}.

End Sockets.

(* ===================================================================== *)
(** * Part II: properties                                                 *)
(* ===================================================================== *)

(** ** Arrays *)

Section ArrayFacts.
Context {A : Type} (eqb : A -> A -> bool).
Hypothesis eqb_eq : forall a b, eqb a b = true <-> a = b.

Lemma indexOf_from_absent (l : list A) (x : A) (i : Z) :
  ~ In x l -> indexOf_from eqb l x i = -1.
Proof.
  revert i; induction l as [|y r IH]; intros i Hn; simpl; [reflexivity|].
  destruct (eqb y x) eqn:E.
  - apply eqb_eq in E. exfalso. apply Hn. now left.
  - apply IH. intro H. apply Hn. now right.
Qed.

Lemma indexOf_from_first (l1 l2 : list A) (x : A) (i : Z) :
  ~ In x l1 ->
  indexOf_from eqb (l1 ++ x :: l2) x i = i + Z.of_nat (List.length l1).
Proof.
  revert i; induction l1 as [|y r IH]; intros i Hn; simpl List.length; simpl app.
  - simpl. replace (eqb x x) with true; [lia|].
    symmetry. now apply eqb_eq.
  - simpl indexOf_from. destruct (eqb y x) eqn:E.
    + apply eqb_eq in E. exfalso. apply Hn. now left.
    + rewrite IH; [lia|]. intro H. apply Hn. now right.
Qed.

Lemma Array_indexOf_absent (l : list A) (x : A) :
  ~ In x l -> Array_indexOf eqb l x = -1.
Proof. apply indexOf_from_absent. Qed.

Lemma Array_indexOf_first (l1 l2 : list A) (x : A) :
  ~ In x l1 -> Array_indexOf eqb (l1 ++ x :: l2) x = Z.of_nat (List.length l1).
Proof. intro H. unfold Array_indexOf. now rewrite indexOf_from_first. Qed.

Lemma Array_splice_one (l1 l2 : list A) (x : A) :
  Array_splice (l1 ++ x :: l2) (Z.of_nat (List.length l1)) 1 = (l1 ++ l2)%list.
Proof.
  unfold Array_splice. rewrite length_app. simpl List.length.
  destruct (Z.of_nat (List.length l1) <? 0) eqn:E; [apply Z.ltb_lt in E; lia|].
  rewrite Z.min_l by lia.
  replace (Z.min (Z.max 1 0) _) with 1 by lia.
  rewrite Nat2Z.id.
  replace (Z.to_nat (Z.of_nat (List.length l1) + 1)) with (List.length l1 + 1)%nat by lia.
  rewrite firstn_app, Nat.sub_diag, firstn_all. simpl firstn. rewrite app_nil_r.
  rewrite skipn_app, skipn_all2 by lia.
  replace (List.length l1 + 1 - List.length l1)%nat with 1%nat by lia.
  reflexivity.
Qed.

(** [l.splice(-1, 1)] takes the last element out. *)
Lemma Array_splice_minus_one (l : list A) :
  Array_splice l (-1) 1 = removelast l.
Proof.
  destruct l as [|x r _] using rev_ind; [reflexivity|].
  rewrite removelast_last.
  unfold Array_splice. rewrite length_app. simpl List.length.
  replace (-1 <? 0) with true by reflexivity.
  replace (Z.max (Z.of_nat (List.length r + 1) + -1) 0)
    with (Z.of_nat (List.length r)) by lia.
  replace (Z.min (Z.max 1 0) _) with 1 by lia.
  rewrite Nat2Z.id.
  replace (Z.to_nat (Z.of_nat (List.length r) + 1)) with (List.length r + 1)%nat by lia.
  rewrite firstn_app, Nat.sub_diag, firstn_all. simpl firstn. rewrite app_nil_r.
  rewrite skipn_all2; [now rewrite app_nil_r|].
  rewrite length_app. simpl. lia.
Qed.

Lemma in_first_occurrence (l : list A) (x : A) :
  In x l -> exists l1 l2, l = (l1 ++ x :: l2)%list /\ ~ In x l1.
Proof.
  induction l as [|y r IH]; intro H; [contradiction|].
  destruct (eqb y x) eqn:E.
  - apply eqb_eq in E. subst y. exists [], r. split; [reflexivity|]. intros [].
  - destruct H as [-> | H].
    + assert (eqb x x = true) by now apply eqb_eq. congruence.
    + destruct (IH H) as (l1 & l2 & -> & Hn).
      exists (y :: l1), l2. split; [reflexivity|].
      intros [-> | H']; [|now apply Hn].
      assert (eqb x x = true) by now apply eqb_eq. congruence.
Qed.

(** Taking out by [indexOf] then [splice] removes the first occurrence. *)
Lemma splice_indexOf_first (l1 l2 : list A) (x : A) :
  ~ In x l1 ->
  Array_splice (l1 ++ x :: l2) (Array_indexOf eqb (l1 ++ x :: l2) x) 1
  = (l1 ++ l2)%list.
Proof.
  intro H. rewrite Array_indexOf_first by assumption. apply Array_splice_one.
Qed.

Lemma splice_indexOf_absent (l : list A) (x : A) :
  ~ In x l -> Array_splice l (Array_indexOf eqb l x) 1 = removelast l.
Proof.
  intro H. rewrite Array_indexOf_absent by assumption.
  apply Array_splice_minus_one.
Qed.

Lemma push_then_remove (l : list A) (x : A) :
  ~ In x l ->
  Array_splice (Array_push l x) (Array_indexOf eqb (Array_push l x) x) 1 = l.
Proof.
  intro H. unfold Array_push.
  rewrite splice_indexOf_first by assumption. apply app_nil_r.
Qed.
End ArrayFacts.

(** ** JSON: what is written is read back *)

Module JSONFacts.

Lemma append_assoc (a b c : string) : (a ++ b) ++ c = a ++ (b ++ c).
Proof. induction a as [|x a IH]; simpl; [reflexivity|now rewrite IH]. Qed.

Lemma append_nil_r (a : string) : a ++ "" = a.
Proof. induction a as [|x a IH]; simpl; [reflexivity|now rewrite IH]. Qed.

Lemma escape_string_app (a b : string) :
  escape_string (a ++ b) = escape_string a ++ escape_string b.
Proof.
  induction a as [|x a IH]; simpl; [reflexivity|].
  now rewrite IH, append_assoc.
Qed.

Lemma parse_escaped_unit (c : ascii) (tail : string) :
  parse_string_body (escape_code_unit c ++ tail)
  = cons_char c (parse_string_body tail).
Proof.
  destruct c as [[] [] [] [] [] [] [] []]; reflexivity.
Qed.

Lemma parse_quoted (s rest : string) :
  parse_string_body (escape_string s ++ String dquote rest) = Ok (s, rest).
Proof.
  induction s as [|c s IH]; [reflexivity|].
  simpl escape_string. rewrite append_assoc, parse_escaped_unit, IH.
  reflexivity.
Qed.

Lemma span_digits_uint (d : Decimal.uint) (rest : string) :
  delimited rest = true ->
  span_digits (DecimalString.NilEmpty.string_of_uint d ++ rest)
  = (DecimalString.NilEmpty.string_of_uint d, rest).
Proof.
  intro H. induction d; simpl;
    try (change (is_digit _) with true; cbv iota; rewrite IHd; reflexivity).
  destruct rest as [|c r]; [reflexivity|]. simpl in *.
  destruct (is_digit c); [discriminate|reflexivity].
Qed.

Lemma unorm_canonical (d : Decimal.uint) : canonical (Decimal.unorm d).
Proof.
  induction d; try exact I.
  exact IHd.
Qed.

Lemma to_uint_canonical (p : positive) : canonical (Pos.to_uint p).
Proof.
  pose proof (DecimalPos.Unsigned.to_of (Pos.to_uint p)) as H.
  rewrite DecimalPos.Unsigned.of_to in H. simpl in H.
  rewrite H. apply unorm_canonical.
Qed.

Lemma delimited_no_fraction (rest : string) :
  delimited rest = true -> starts_fraction_or_exponent rest = false.
Proof.
  destruct rest as [|c r]; [reflexivity|]. unfold delimited.
  intro H. apply andb_true_iff in H. destruct H as [_ H].
  now apply negb_true_iff in H.
Qed.

Lemma parse_number_canonical (d : Decimal.uint) (rest : string) :
  canonical d -> delimited rest = true ->
  parse_number (DecimalString.NilEmpty.string_of_uint d ++ rest)
  = Ok (Z.of_uint d, rest)
  /\ parse_number (String "-" (DecimalString.NilEmpty.string_of_uint d ++ rest))
     = Ok (- Z.of_uint d, rest).
Proof.
  intros Hc Hd.
  pose proof (span_digits_uint d rest Hd) as Hs.
  pose proof (DecimalString.NilEmpty.usu d) as Hu.
  pose proof (delimited_no_fraction rest Hd) as Hf.
  unfold parse_number.
  destruct d as [|d|d|d|d|d|d|d|d|d|d]; try contradiction;
    simpl DecimalString.NilEmpty.string_of_uint in *;
    simpl append in *;
    (split;
     [ change (Ascii.eqb _ "-") with false
     | change (Ascii.eqb "-" "-") with true ];
     cbv iota; rewrite Hs;
     try (destruct d; try contradiction);
     simpl; rewrite ?Hf; simpl in Hu; rewrite ?Hu; try reflexivity).
Qed.

Lemma Number_toString_canonical (n : number) :
  exists d, canonical d
    /\ (Number_toString n = DecimalString.NilEmpty.string_of_uint d
        /\ integer n = Z.of_uint d
        \/ Number_toString n = String "-" (DecimalString.NilEmpty.string_of_uint d)
           /\ integer n = - Z.of_uint d).
Proof.
  destruct n as [[|p|p] Hsafe]; cbn [integer].
  - exists (Decimal.D0 Decimal.Nil). split; [exact I|]. left. split; reflexivity.
  - exists (Pos.to_uint p). split; [apply to_uint_canonical|]. left.
    pose proof (to_uint_canonical p) as Hc.
    pose proof (DecimalPos.Unsigned.of_to p) as Ho.
    unfold Number_toString, Z.of_uint. rewrite Ho. simpl.
    destruct (Pos.to_uint p); try contradiction; split; reflexivity.
  - exists (Pos.to_uint p). split; [apply to_uint_canonical|]. right.
    pose proof (to_uint_canonical p) as Hc.
    pose proof (DecimalPos.Unsigned.of_to p) as Ho.
    unfold Number_toString, Z.of_uint. rewrite Ho. simpl.
    destruct (Pos.to_uint p); try contradiction; split; reflexivity.
Qed.

Lemma parse_number_toString (n : number) (rest : string) :
  delimited rest = true ->
  parse_number (Number_toString n ++ rest) = Ok (integer n, rest).
Proof.
  intro Hd.
  destruct (Number_toString_canonical n) as (d & Hc & [[-> ->] | [-> ->]]).
  - apply (parse_number_canonical d rest Hc Hd).
  - apply (parse_number_canonical d rest Hc Hd).
Qed.

Lemma uint_start (d : Decimal.uint) :
  canonical d ->
  exists c t, DecimalString.NilEmpty.string_of_uint d = String c t
              /\ is_digit c = true.
Proof.
  destruct d; try contradiction; intros _; simpl; eauto.
Qed.

Lemma Number_toString_start (n : number) :
  exists c t, Number_toString n = String c t
              /\ (is_digit c = true \/ c = "-"%char).
Proof.
  destruct (Number_toString_canonical n) as (d & Hc & [[-> _] | [-> _]]).
  - destruct (uint_start d Hc) as (c & t & -> & H). eauto.
  - eauto.
Qed.

(** A number is the number its integer denotes. *)
Lemma to_number_integer (n : number) : to_number (integer n) = Some n.
Proof.
  destruct n as [z H]. unfold to_number. cbn [integer].
  destruct (bool_dec (safe_integer z) true) as [H'|H']; [|contradiction].
  do 2 f_equal. apply (Eqdep_dec.UIP_dec bool_dec).
Qed.

(** A number at the head of the text is read by [parse_number]. *)
Lemma parse_value_number (f : nat) (c : ascii) (r : string) :
  is_digit c = true \/ c = "-"%char ->
  parse_value (S f) (String c r)
  = match parse_number (String c r) with
    | Ok (z, r') =>
        match to_number z with
        | Some n => Ok (VNumber n, r')
        | None => Unmodelled
        end
    | Throw x => Throw x
    | Unmodelled => Unmodelled
    end.
Proof.
  intro H.
  destruct c as [[] [] [] [] [] [] [] []];
    try (exfalso; destruct H as [H|H]; discriminate H);
    reflexivity.
Qed.

Lemma value_start_not_ws (c : ascii) :
  value_start c = true ->
  is_ws c = false /\ Ascii.eqb c "]" = false /\ Ascii.eqb c "}" = false.
Proof.
  destruct c as [[] [] [] [] [] [] [] []]; try discriminate; intros _;
    repeat split; reflexivity.
Qed.

Lemma stringify_arr (l : list value) :
  JSON_stringify (VArr l)
  = Some ("[" ++ String.concat "," (map elem_text l) ++ "]").
Proof.
  reflexivity.
Qed.

Lemma stringify_members (l : list (string * value)) :
  JSON_stringify (VObj l)
  = Some ("{" ++ String.concat "," (member_texts l) ++ "}").
Proof. reflexivity. Qed.

Lemma json_data_stringify (v : value) :
  json_data v = true -> JSON_stringify v = Some (elem_text v).
Proof.
  unfold elem_text. destruct v; simpl; try discriminate; reflexivity.
Qed.

Lemma member_texts_data (l : list (string * value)) :
  forallb (fun kv => json_data (snd kv)) l = true ->
  member_texts l = map member_text l.
Proof.
  induction l as [|[k x] r IH]; intro H; [reflexivity|].
  simpl in H. apply andb_true_iff in H. destruct H as [Hx Hr].
  simpl. rewrite (json_data_stringify x Hx), (IH Hr). reflexivity.
Qed.

Lemma stringify_obj (l : list (string * value)) :
  forallb (fun kv => json_data (snd kv)) l = true ->
  JSON_stringify (VObj l)
  = Some ("{" ++ String.concat "," (map member_text l) ++ "}").
Proof.
  intro H. now rewrite stringify_members, member_texts_data.
Qed.

Lemma elem_text_start (v : value) :
  json_data v = true ->
  exists c t, elem_text v = String c t /\ value_start c = true.
Proof.
  intro H. destruct v as [ | |b|n|s|l|l]; try discriminate.
  - exists "n"%char, "ull". split; reflexivity.
  - destruct b; [exists "t"%char, "rue" | exists "f"%char, "alse"]; split; reflexivity.
  - unfold elem_text. simpl.
    destruct (Number_toString_start n) as (c & t & -> & [Hc | ->]).
    + exists c, t. split; [reflexivity|]. unfold value_start. now rewrite Hc.
    + exists "-"%char, t. split; reflexivity.
  - exists dquote, (escape_string s ++ dq). split; reflexivity.
  - unfold elem_text. rewrite stringify_arr. simpl. eauto.
  - unfold elem_text. simpl. eauto.
Qed.

Lemma concat_cons (sep x : string) (y : string) (l : list string) :
  String.concat sep (x :: y :: l) = x ++ sep ++ String.concat sep (y :: l).
Proof. reflexivity. Qed.

Lemma delimited_punct (c : ascii) (r : string) :
  is_digit c = false -> Ascii.eqb c "." = false ->
  Ascii.eqb c "e" = false -> Ascii.eqb c "E" = false ->
  delimited (String c r) = true.
Proof. intros H1 H2 H3 H4. unfold delimited. simpl. now rewrite H1, H2, H3, H4. Qed.

Lemma parse_elements_comma (parse : string -> result (value * string))
    (n : nat) (t more : string) (v : value) (acc : list value) :
  parse (t ++ String "," more) = Ok (v, String "," more) ->
  parse_elements parse (S n) (t ++ String "," more) acc
  = parse_elements parse n more (v :: acc).
Proof. intro H. simpl. rewrite H. reflexivity. Qed.

Lemma parse_elements_close (parse : string -> result (value * string))
    (n : nat) (t rest : string) (v : value) (acc : list value) :
  parse (t ++ String "]" rest) = Ok (v, String "]" rest) ->
  parse_elements parse (S n) (t ++ String "]" rest) acc
  = Ok (VArr (List.rev (v :: acc)), rest).
Proof. intro H. simpl. rewrite H. reflexivity. Qed.

Lemma parse_elements_texts (f : nat) (l : list value) :
  forall (x : value) (n : nat) (acc : list value) (rest : string),
  Forall (reads_back f) (x :: l) ->
  (List.length (x :: l) <= n)%nat ->
  parse_elements (parse_value f) n
    (String.concat "," (map elem_text (x :: l)) ++ String "]" rest) acc
  = Ok (VArr (List.rev acc ++ x :: l), rest).
Proof.
  induction l as [|y l IH]; intros x n acc rest HF Hn;
    destruct n as [|n]; simpl List.length in Hn; try lia;
    inversion HF as [|? ? [_ Hx] HF']; subst.
  - change (String.concat "," (map elem_text [x])) with (elem_text x).
    rewrite (parse_elements_close _ n _ rest x acc) by (apply Hx; reflexivity).
    reflexivity.
  - change (map elem_text (x :: y :: l))
      with (elem_text x :: elem_text y :: map elem_text l).
    rewrite concat_cons, !append_assoc. cbn [append].
    rewrite (parse_elements_comma _ n _ _ x acc) by (apply Hx; reflexivity).
    change (elem_text y :: map elem_text l) with (map elem_text (y :: l)).
    rewrite IH; [|assumption|simpl; lia].
    simpl. now rewrite <- app_assoc.
Qed.

Lemma lookup_absent (k : string) (l : list (string * value)) :
  ~ In k (map fst l) -> lookup k l = None.
Proof.
  induction l as [|[k' v'] r IH]; intro H; [reflexivity|]. simpl.
  destruct (String.eqb_spec k' k) as [->|_].
  - exfalso. apply H. now left.
  - apply IH. intro; apply H; now right.
Qed.

Lemma insert_prop_last (k : string) (v : value) (acc : list (string * value)) :
  (forall k', In k' (map fst acc) -> enumerated_before k k' = false) ->
  insert_prop k v acc = (acc ++ [(k, v)])%list.
Proof.
  induction acc as [|[k' v'] r IH]; intro H; [reflexivity|]. simpl.
  rewrite (H k') by now left.
  rewrite IH; [reflexivity|]. intros k'' Hk. apply H. now right.
Qed.

(** A new key that comes after the keys already there goes last. *)
Lemma set_prop_fresh (k : string) (v : value) (acc : list (string * value)) :
  ~ In k (map fst acc) ->
  (forall k', In k' (map fst acc) -> enumerated_before k k' = false) ->
  set_prop k v acc = (acc ++ [(k, v)])%list.
Proof.
  intros Hn Ho. unfold set_prop. rewrite (lookup_absent k acc Hn).
  now apply insert_prop_last.
Qed.

Lemma in_order_app_later (a b : list string) (k : string) :
  in_order (a ++ k :: b) = true ->
  forall k', In k' a -> enumerated_before k k' = false.
Proof.
  induction a as [|x a IH]; intros H k' Hk; [contradiction|].
  simpl in H. apply andb_true_iff in H. destruct H as [Hx Ha].
  destruct Hk as [->|Hk]; [|now apply IH].
  rewrite forallb_forall in Hx.
  apply negb_true_iff. apply Hx. apply in_or_app. right. now left.
Qed.

(** One member read: the key, the colon, the value. *)
Lemma parse_member (parse : string -> result (value * string))
    (n : nat) (k tail : string) (v : value) (acc : list (string * value)) :
  parse_members parse (S n) (member_text (k, v) ++ tail) acc
  = match parse (elem_text v ++ tail) with
    | Ok (v, r3) =>
        match skip_ws r3 with
        | String d r4 =>
            if Ascii.eqb d "," then parse_members parse n r4 (set_prop k v acc)
            else if Ascii.eqb d "}" then Ok (VObj (set_prop k v acc), r4)
            else Throw SyntaxError
        | "" => Throw SyntaxError
        end
    | Throw x => Throw x
    | Unmodelled => Unmodelled
    end.
Proof.
  unfold member_text, QuoteJSONString. cbn [fst snd].
  rewrite !append_assoc. cbn [append dq].
  cbn [parse_members skip_ws is_ws]. 
  replace (is_ws dquote) with false by reflexivity.
  replace (Ascii.eqb dquote dquote) with true by reflexivity.
  cbv iota. rewrite parse_quoted. reflexivity.
Qed.

Lemma parse_members_texts (f : nat) (l : list (string * value)) :
  forall (kv : string * value) (n : nat) (acc : list (string * value))
         (rest : string),
  Forall (fun kv => reads_back f (snd kv)) (kv :: l) ->
  NoDup (map fst acc ++ map fst (kv :: l)) ->
  in_order (map fst acc ++ map fst (kv :: l)) = true ->
  (List.length (kv :: l) <= n)%nat ->
  parse_members (parse_value f) n
    (String.concat "," (map member_text (kv :: l)) ++ String "}" rest) acc
  = Ok (VObj (acc ++ kv :: l), rest).
Proof.
  induction l as [|kv' l IH]; intros [k x] n acc rest HF Hnd Hord Hn;
    destruct n as [|n]; simpl List.length in Hn; try lia;
    inversion HF as [|? ? [_ Hx] HF']; subst; simpl snd in Hx;
    assert (Hk : ~ In k (map fst acc))
      by (intro Hin; apply NoDup_remove_2 in Hnd; apply Hnd, in_or_app; now left);
    pose proof (in_order_app_later _ _ _ Hord) as Hlast.
  - change (String.concat "," (map member_text [(k, x)])) with (member_text (k, x)).
    rewrite parse_member, Hx by reflexivity.
    cbn [skip_ws]. replace (is_ws "}") with false by reflexivity.
    replace (Ascii.eqb "}" ",") with false by reflexivity.
    replace (Ascii.eqb "}" "}") with true by reflexivity. cbv iota.
    now rewrite set_prop_fresh.
  - change (map member_text ((k, x) :: kv' :: l))
      with (member_text (k, x) :: member_text kv' :: map member_text l).
    rewrite concat_cons, !append_assoc. cbn [append].
    rewrite parse_member, Hx by reflexivity.
    cbn [skip_ws]. replace (is_ws ",") with false by reflexivity.
    replace (Ascii.eqb "," ",") with true by reflexivity. cbv iota.
    change (member_text kv' :: map member_text l) with (map member_text (kv' :: l)).
    rewrite set_prop_fresh by assumption.
    rewrite IH; [|assumption| | |simpl; lia].
    + now rewrite <- app_assoc.
    + rewrite map_app. simpl map at 2. rewrite <- app_assoc. exact Hnd.
    + rewrite map_app. simpl map at 2. rewrite <- app_assoc. exact Hord.
Qed.

Lemma parse_value_array (f : nat) (c : ascii) (t : string) :
  is_ws c = false -> Ascii.eqb c "]" = false ->
  parse_value (S f) (String "[" (String c t))
  = parse_elements (parse_value f) f (String c t) [].
Proof.
  intros H1 H2. cbn [parse_value skip_ws].
  replace (is_ws "[") with false by reflexivity.
  replace (Ascii.eqb "[" "{") with false by reflexivity.
  replace (Ascii.eqb "[" "[") with true by reflexivity.
  cbv iota. cbn [skip_ws]. rewrite H1, H2. reflexivity.
Qed.

Lemma parse_value_object (f : nat) (t : string) :
  parse_value (S f) (String "{" (String dquote t))
  = parse_members (parse_value f) f (String dquote t) [].
Proof. reflexivity. Qed.

Lemma concat_start (sep first : string) (l : list string) (c : ascii)
    (t tail : string) :
  first = String c t ->
  exists t', String.concat sep (first :: l) ++ tail = String c t'.
Proof.
  intros ->. destruct l as [|y l]; simpl; eauto.
Qed.

Lemma distinct_NoDup (l : list string) : distinct l = true -> NoDup l.
Proof.
  induction l as [|k r IH]; intro H; [constructor|].
  simpl in H. apply andb_true_iff in H. destruct H as [Hk Hr].
  constructor; [|now apply IH].
  intro Hin. apply negb_true_iff in Hk.
  assert (E : existsb (String.eqb k) r = true).
  { apply existsb_exists. exists k. split; [assumption|apply String.eqb_refl]. }
  congruence.
Qed.

Lemma list_sum_bound (A : Type) (g : A -> nat) (l : list A) (x : A) :
  In x l -> (g x <= list_sum (map g l))%nat.
Proof.
  induction l as [|y r IH]; intro H; [contradiction|]. simpl.
  destruct H as [->|H]; [lia|]. specialize (IH H). lia.
Qed.

Lemma list_sum_length (A : Type) (g : A -> nat) (l : list A) :
  (forall x, In x l -> 1 <= g x)%nat -> (List.length l <= list_sum (map g l))%nat.
Proof.
  induction l as [|y r IH]; intro H; simpl; [lia|].
  assert (1 <= g y)%nat by (apply H; now left).
  assert (List.length r <= list_sum (map g r))%nat
    by (apply IH; intros; apply H; now right).
  lia.
Qed.

Lemma size_pos (v : value) : (1 <= size v)%nat.
Proof. destruct v; simpl; lia. Qed.

(** Reading back what [JSON.stringify] writes for data: the parser gives
    the value and stops where the text stops. *)
Lemma parse_stringify (v : value) :
  json_data v = true ->
  forall (f : nat) (rest : string),
    (size v <= f)%nat -> delimited rest = true ->
    parse_value f (elem_text v ++ rest) = Ok (v, rest).
Proof.
  induction v as [ | |b|n|s|l IH|l IH] using value_nested_ind;
    intros Hd f rest Hf Hr; try discriminate;
    (destruct f as [|f]; [pose proof (size_pos VNull); simpl in Hf; lia|]).
  - reflexivity.
  - destruct b; reflexivity.
  - unfold elem_text. simpl JSON_stringify. cbv iota.
    destruct (Number_toString_start n) as (c & t & E & Hc).
    pose proof (parse_number_toString n rest Hr) as Hp.
    rewrite E in Hp |- *. simpl append in Hp |- *.
    rewrite (parse_value_number f c _ Hc), Hp, to_number_integer. reflexivity.
  - unfold elem_text. simpl JSON_stringify. cbv iota.
    unfold QuoteJSONString. rewrite !append_assoc. cbn [append dq].
    cbn [parse_value skip_ws].
    replace (is_ws dquote) with false by reflexivity.
    replace (Ascii.eqb dquote "{") with false by reflexivity.
    replace (Ascii.eqb dquote "[") with false by reflexivity.
    replace (Ascii.eqb dquote dquote) with true by reflexivity.
    cbv iota. rewrite parse_quoted. reflexivity.
  - unfold elem_text. rewrite stringify_arr.
    rewrite !append_assoc. cbn [append].
    pose proof (proj1 (forallb_forall json_data l) Hd) as Hall.
    destruct l as [|x l]; [reflexivity|].
    simpl size in Hf.
    assert (HF : Forall (reads_back f) (x :: l)).
    { rewrite Forall_forall in IH |- *. intros y Hy. split.
      - now apply Hall.
      - intros rest' Hr'. apply IH; try assumption.
        + now apply Hall.
        + pose proof (list_sum_bound _ size (x :: l) y Hy). simpl in H. lia. }
    assert (Hx : json_data x = true) by (apply Hall; now left).
    destruct (elem_text_start x Hx) as (c & t & Ec & Hc).
    destruct (value_start_not_ws c Hc) as (W & B & _).
    destruct (concat_start "," (elem_text x) (map elem_text l) c t
                (String "]" rest) Ec) as (t' & Et).
    change (map elem_text (x :: l)) with (elem_text x :: map elem_text l).
    rewrite Et, (parse_value_array f c t' W B), <- Et.
    change (elem_text x :: map elem_text l) with (map elem_text (x :: l)).
    rewrite parse_elements_texts; [reflexivity|assumption|].
    pose proof (list_sum_length _ size (x :: l) (fun y _ => size_pos y)).
    simpl in H |- *. lia.
  - simpl json_data in Hd. apply andb_true_iff in Hd. destruct Hd as [Hk Hd].
    apply andb_true_iff in Hk. destruct Hk as [Hk Ho].
    unfold elem_text. rewrite (stringify_obj l Hd).
    rewrite !append_assoc. cbn [append].
    pose proof (proj1 (forallb_forall _ l) Hd) as Hall.
    destruct l as [|[k x] l]; [reflexivity|].
    simpl size in Hf.
    assert (HF : Forall (fun kv => reads_back f (snd kv)) ((k, x) :: l)).
    { rewrite Forall_forall in IH |- *. intros y Hy. split.
      - now apply Hall.
      - intros rest' Hr'. apply IH; try assumption.
        + now apply Hall.
        + pose proof (list_sum_bound _ (fun kv => size (snd kv)) ((k, x) :: l) y Hy).
          simpl in H. lia. }
    destruct (concat_start "," (member_text (k, x)) (map member_text l) dquote
                ((escape_string k ++ dq) ++ ":" ++ elem_text x)
                (String "}" rest) eq_refl) as (t' & Et).
    change (map member_text ((k, x) :: l))
      with (member_text (k, x) :: map member_text l).
    rewrite Et, (parse_value_object f t'), <- Et.
    change (member_text (k, x) :: map member_text l)
      with (map member_text ((k, x) :: l)).
    rewrite parse_members_texts; [reflexivity|assumption| | |].
    + simpl app. now apply distinct_NoDup.
    + exact Ho.
    + pose proof (list_sum_length _ (fun kv => size (snd kv)) ((k, x) :: l)
                    (fun y _ => size_pos (snd y))).
      simpl in H |- *. lia.
Qed.

Lemma length_append (a b : string) :
  String.length (a ++ b) = (String.length a + String.length b)%nat.
Proof. induction a as [|x a IH]; simpl; [reflexivity|now rewrite IH]. Qed.

Lemma length_concat (sep : string) (l : list string) :
  (list_sum (map String.length l) <= String.length (String.concat sep l))%nat.
Proof.
  induction l as [|x [|y l] IH]; simpl in *; try lia.
  rewrite !length_append. lia.
Qed.

Lemma list_sum_le (A : Type) (g h : A -> nat) (l : list A) :
  Forall (fun x => g x <= h x)%nat l ->
  (list_sum (map g l) <= list_sum (map h l))%nat.
Proof. induction 1; simpl; lia. Qed.

(** Every value of the data takes at least one character of its text. *)
Lemma size_le_length (v : value) :
  json_data v = true -> (size v <= String.length (elem_text v))%nat.
Proof.
  induction v as [ | |b|n|s|l IH|l IH] using value_nested_ind;
    intro Hd; try discriminate.
  - simpl. lia.
  - destruct b; simpl; lia.
  - unfold elem_text. simpl JSON_stringify. cbv iota.
    destruct (Number_toString_start n) as (c & t & -> & _). simpl. lia.
  - unfold elem_text. simpl. lia.
  - unfold elem_text. rewrite stringify_arr.
    pose proof (proj1 (forallb_forall json_data l) Hd) as Hall.
    simpl size. rewrite !length_append.
    pose proof (length_concat "," (map elem_text l)) as Hc.
    rewrite map_map in Hc.
    assert (Hs : (list_sum (map size l)
                  <= list_sum (map (fun x => String.length (elem_text x)) l))%nat).
    { apply list_sum_le. rewrite Forall_forall in IH |- *.
      intros x Hx. apply IH; [assumption|now apply Hall]. }
    simpl String.length. lia.
  - simpl json_data in Hd. apply andb_true_iff in Hd. destruct Hd as [_ Hd].
    unfold elem_text. rewrite (stringify_obj l Hd).
    pose proof (proj1 (forallb_forall _ l) Hd) as Hall.
    simpl size. rewrite !length_append.
    pose proof (length_concat "," (map member_text l)) as Hc.
    rewrite map_map in Hc.
    assert (Hs : (list_sum (map (fun kv => size (snd kv)) l)
                  <= list_sum (map (fun x => String.length (member_text x)) l))%nat).
    { apply list_sum_le. rewrite Forall_forall in IH |- *.
      intros x Hx. unfold member_text. rewrite !length_append.
      specialize (IH x Hx (Hall x Hx)). lia. }
    simpl String.length. lia.
Qed.

(** [JSON.parse(JSON.stringify(v))] is [v], for data. *)
Lemma JSON_parse_stringify (v : value) :
  json_data v = true ->
  JSON_stringify v = Some (elem_text v)
  /\ JSON_parse (elem_text v) = Ok v.
Proof.
  intro Hd. split; [now apply json_data_stringify|].
  unfold JSON_parse.
  pose proof (parse_stringify v Hd (S (String.length (elem_text v))) ""
                ltac:(pose proof (size_le_length v Hd); lia) eq_refl) as H.
  rewrite append_nil_r in H. rewrite H. reflexivity.
Qed.


(** The closing tag of a script goes through [QuoteJSONString] as it is. *)
Lemma quote_keeps_closing_tag (a b : string) :
  JSON_stringify (VStr (a ++ "</script>" ++ b))
  = Some (dq ++ escape_string a ++ "</script>" ++ escape_string b ++ dq).
Proof.
  simpl JSON_stringify. unfold QuoteJSONString.
  rewrite !escape_string_app, !append_assoc. reflexivity.
Qed.

(** *** The fuel of the parser *)

Local Open Scope nat_scope.

Lemma skip_ws_length (s : string) :
  String.length (skip_ws s) <= String.length s.
Proof.
  induction s as [|c r IH]; simpl; [lia|].
  destruct (is_ws c); simpl; lia.
Qed.

Lemma skip_ws_cons (s : string) (c : ascii) (r : string) :
  skip_ws s = String c r -> String.length r < String.length s.
Proof.
  intro H. pose proof (skip_ws_length s) as L. rewrite H in L. simpl in L. lia.
Qed.

Lemma cons_char_ok (c : ascii) (o : result (string * string))
    (k r : string) :
  cons_char c o = Ok (k, r) -> exists k', o = Ok (k', r).
Proof.
  destruct o as [[k' r']|x|]; simpl; try discriminate.
  intros [= _ <-]. eauto.
Qed.

Lemma parse_string_body_shorter_le (n : nat) :
  forall (s k r : string),
    String.length s <= n ->
    parse_string_body s = Ok (k, r) -> String.length r < String.length s.
Proof.
  induction n as [|n IH]; intros s k r Hn H.
  - destruct s; [discriminate|simpl in Hn; lia].
  - destruct s as [|c s]; [discriminate|]. simpl in Hn. simpl in H.
    destruct (Ascii.eqb c dquote).
    { injection H as Hv Hr; subst r. simpl. lia. }
    destruct (Ascii.eqb c backslash).
    { destruct s as [|e s]; [discriminate|]. simpl in Hn.
      assert (Rec : forall c', cons_char c' (parse_string_body s) = Ok (k, r) ->
                String.length r < String.length (String c (String e s))).
      { intros c' H'. apply cons_char_ok in H'. destruct H' as [k' H'].
        apply IH in H'; [simpl; lia|lia]. }
      repeat (match type of H with
              | (if ?b then _ else _) = _ => destruct b; [now apply Rec in H|]
              end).
      destruct (Ascii.eqb e "u"); [|discriminate].
      destruct s as [|h1 [|h2 [|h3 [|h4 s]]]]; try discriminate.
      destruct (unicode_escape h1 h2 h3 h4) as [u|x|]; try discriminate.
      apply cons_char_ok in H. destruct H as [k' H].
      apply IH in H; simpl in *; lia. }
    destruct (N_of_ascii c <? 32)%N; [discriminate|].
    apply cons_char_ok in H. destruct H as [k' H].
    apply IH in H; simpl; lia.
Qed.

Lemma parse_string_body_shorter (s k r : string) :
  parse_string_body s = Ok (k, r) -> String.length r < String.length s.
Proof. apply (parse_string_body_shorter_le (String.length s)). lia. Qed.

Lemma span_digits_length (s ds r : string) :
  span_digits s = (ds, r) ->
  String.length s = String.length ds + String.length r.
Proof.
  revert ds r. induction s as [|c s IH]; intros ds r H; simpl in H.
  - injection H as <- <-. reflexivity.
  - destruct (is_digit c).
    + destruct (span_digits s) as [ds' r'] eqn:E. injection H as <- <-.
      simpl. rewrite (IH _ _ eq_refl). reflexivity.
    + injection H as <- <-. reflexivity.
Qed.

Lemma parse_number_shorter (s : string) (n : Z) (r : string) :
  parse_number s = Ok (n, r) -> String.length r < String.length s.
Proof.
  unfold parse_number.
  set (cut := match s with
              | "" => (false, s)
              | String c r0 => if Ascii.eqb c "-" then (true, r0) else (false, s)
              end).
  assert (Hc : String.length (snd cut) <= String.length s).
  { subst cut. destruct s as [|c r0]; simpl; [lia|].
    destruct (Ascii.eqb c "-"); simpl; lia. }
  destruct cut as [negative s1]. simpl in Hc.
  destruct (span_digits s1) as [ds rest] eqn:E.
  apply span_digits_length in E.
  destruct ds as [|d ds']; [discriminate|].
  destruct (Ascii.eqb d "0" && negb (String.eqb ds' "")); [discriminate|].
  destruct (starts_fraction_or_exponent rest); [discriminate|].
  destruct (DecimalString.NilEmpty.uint_of_string _); [|discriminate].
  intros [= _ <-]. simpl in E. lia.
Qed.

Lemma strip_prefix_length (p s r : string) :
  strip_prefix p s = Some r ->
  String.length s = String.length p + String.length r.
Proof.
  revert s. induction p as [|a p IH]; intros s H; simpl in H.
  - injection H as <-. reflexivity.
  - destruct s as [|b s]; [discriminate|].
    destruct (Ascii.eqb a b); [|discriminate].
    simpl. now rewrite (IH _ H).
Qed.

Lemma parse_elements_consumes (parse : string -> result (value * string)) :
  consumes parse ->
  forall n s acc v r,
    parse_elements parse n s acc = Ok (v, r) ->
    String.length r < String.length s.
Proof.
  intros Hp. induction n as [|n IH]; intros s acc v r H; [discriminate|].
  simpl in H. destruct (parse s) as [[x r1]|x|] eqn:E1; try discriminate.
  apply Hp in E1.
  destruct (skip_ws r1) as [|c r2] eqn:E2; [discriminate|].
  apply skip_ws_cons in E2.
  destruct (Ascii.eqb c ",").
  - apply IH in H. lia.
  - destruct (Ascii.eqb c "]"); [|discriminate].
    injection H as Hv Hr; subst r. lia.
Qed.

Lemma parse_members_consumes (parse : string -> result (value * string)) :
  consumes parse ->
  forall n s acc v r,
    parse_members parse n s acc = Ok (v, r) ->
    String.length r < String.length s.
Proof.
  intros Hp. induction n as [|n IH]; intros s acc v r H; [discriminate|].
  simpl in H.
  destruct (skip_ws s) as [|q r0] eqn:E0; [discriminate|].
  apply skip_ws_cons in E0.
  destruct (Ascii.eqb q dquote); [|discriminate].
  destruct (parse_string_body r0) as [[k r1]|x|] eqn:E1; try discriminate.
  apply parse_string_body_shorter in E1.
  destruct (skip_ws r1) as [|c r2] eqn:E2; [discriminate|].
  apply skip_ws_cons in E2.
  destruct (Ascii.eqb c ":"); [|discriminate].
  destruct (parse r2) as [[x r3]|x|] eqn:E3; try discriminate.
  apply Hp in E3.
  destruct (skip_ws r3) as [|d r4] eqn:E4; [discriminate|].
  apply skip_ws_cons in E4.
  destruct (Ascii.eqb d ",").
  - apply IH in H. lia.
  - destruct (Ascii.eqb d "}"); [|discriminate].
    injection H as Hv Hr; subst r. lia.
Qed.

Lemma parse_value_consumes (f : nat) : consumes (parse_value f).
Proof.
  induction f as [|f IH]; intros s v r H; [discriminate|].
  cbn [parse_value] in H.
  destruct (skip_ws s) as [|c r0] eqn:E0; [discriminate|].
  pose proof (skip_ws_length s) as L0. rewrite E0 in L0.
  apply skip_ws_cons in E0.
  destruct (Ascii.eqb c "{").
  { destruct (skip_ws r0) as [|c' r'] eqn:E1; [discriminate|].
    apply skip_ws_cons in E1.
    destruct (Ascii.eqb c' "}").
    - injection H as Hv Hr; subst r. lia.
    - apply (parse_members_consumes _ IH) in H. lia. }
  destruct (Ascii.eqb c "[").
  { destruct (skip_ws r0) as [|c' r'] eqn:E1; [discriminate|].
    apply skip_ws_cons in E1.
    destruct (Ascii.eqb c' "]").
    - injection H as Hv Hr; subst r. lia.
    - apply (parse_elements_consumes _ IH) in H. lia. }
  destruct (Ascii.eqb c dquote).
  { destruct (parse_string_body r0) as [[t r']|x|] eqn:E1; try discriminate.
    apply parse_string_body_shorter in E1. injection H as Hv Hr; subst r. lia. }
  destruct (strip_prefix "true" (String c r0)) as [r'|] eqn:E1.
  { apply strip_prefix_length in E1. injection H as Hv Hr; subst r. simpl in *. lia. }
  destruct (strip_prefix "false" (String c r0)) as [r'|] eqn:E2.
  { apply strip_prefix_length in E2. injection H as Hv Hr; subst r. simpl in *. lia. }
  destruct (strip_prefix "null" (String c r0)) as [r'|] eqn:E3.
  { apply strip_prefix_length in E3. injection H as Hv Hr; subst r. simpl in *. lia. }
  destruct (parse_number (String c r0)) as [[z r']|x|] eqn:E4; try discriminate.
  apply parse_number_shorter in E4.
  destruct (to_number z); [|discriminate].
  injection H as Hv Hr; subst r. simpl in *. lia.
Qed.

Lemma parse_elements_fuel (parse1 parse2 : string -> result (value * string))
    (L : nat) :
  consumes parse1 ->
  (forall s, String.length s < L -> parse2 s = parse1 s) ->
  forall n n' s acc,
    String.length s < L -> String.length s < n -> n <= n' ->
    parse_elements parse2 n' s acc = parse_elements parse1 n s acc.
Proof.
  intros Hc Ha. induction n as [|n IH]; intros n' s acc HL Hn Hn'; [lia|].
  destruct n' as [|n']; [lia|]. simpl.
  rewrite (Ha s HL).
  destruct (parse1 s) as [[x r1]|x|] eqn:E1; try reflexivity.
  apply Hc in E1.
  destruct (skip_ws r1) as [|c r2] eqn:E2; [reflexivity|].
  apply skip_ws_cons in E2.
  destruct (Ascii.eqb c ","); [|reflexivity].
  apply IH; lia.
Qed.

Lemma parse_members_fuel (parse1 parse2 : string -> result (value * string))
    (L : nat) :
  consumes parse1 ->
  (forall s, String.length s < L -> parse2 s = parse1 s) ->
  forall n n' s acc,
    String.length s < L -> String.length s < n -> n <= n' ->
    parse_members parse2 n' s acc = parse_members parse1 n s acc.
Proof.
  intros Hc Ha. induction n as [|n IH]; intros n' s acc HL Hn Hn'; [lia|].
  destruct n' as [|n']; [lia|]. simpl.
  destruct (skip_ws s) as [|q r0] eqn:E0; [reflexivity|].
  apply skip_ws_cons in E0.
  destruct (Ascii.eqb q dquote); [|reflexivity].
  destruct (parse_string_body r0) as [[k r1]|x|] eqn:E1; try reflexivity.
  apply parse_string_body_shorter in E1.
  destruct (skip_ws r1) as [|c r2] eqn:E2; [reflexivity|].
  apply skip_ws_cons in E2.
  destruct (Ascii.eqb c ":"); [|reflexivity].
  rewrite (Ha r2) by lia.
  destruct (parse1 r2) as [[x r3]|x|] eqn:E3; try reflexivity.
  apply Hc in E3.
  destruct (skip_ws r3) as [|d r4] eqn:E4; [reflexivity|].
  apply skip_ws_cons in E4.
  destruct (Ascii.eqb d ","); [|reflexivity].
  apply IH; lia.
Qed.

(** More fuel than the length of the text changes nothing: [JSON_parse]
    never runs out of fuel, so it ends in [Unmodelled] only on a number
    or a code unit that the model does not have. *)
Lemma parse_value_fuel (f : nat) :
  forall (s : string) (f' : nat),
    String.length s < f -> f <= f' -> parse_value f' s = parse_value f s.
Proof.
  induction f as [|f IH]; intros s f' Hs Hf; [lia|].
  destruct f' as [|f']; [lia|].
  cbn [parse_value].
  destruct (skip_ws s) as [|c r0] eqn:E0; [reflexivity|].
  apply skip_ws_cons in E0.
  assert (Hagree : forall t, String.length t < f ->
                     parse_value f' t = parse_value f t)
    by (intros t Ht; apply IH; lia).
  destruct (Ascii.eqb c "{").
  { destruct (skip_ws r0) as [|c' r']; [reflexivity|].
    destruct (Ascii.eqb c' "}"); [reflexivity|].
    apply (parse_members_fuel _ _ f (parse_value_consumes f) Hagree); lia. }
  destruct (Ascii.eqb c "[").
  { destruct (skip_ws r0) as [|c' r']; [reflexivity|].
    destruct (Ascii.eqb c' "]"); [reflexivity|].
    apply (parse_elements_fuel _ _ f (parse_value_consumes f) Hagree); lia. }
  reflexivity.
Qed.

Lemma JSON_parse_fuel (text : string) (f : nat) :
  String.length text < f ->
  JSON_parse text
  = match parse_value f text with
    | Ok (v, rest) =>
        match skip_ws rest with
        | "" => Ok v
        | String _ _ => Throw SyntaxError
        end
    | Throw x => Throw x
    | Unmodelled => Unmodelled
    end.
Proof.
  intro H. unfold JSON_parse.
  now rewrite (parse_value_fuel (S (String.length text)) text f) by lia.
Qed.

Local Open Scope Z_scope.

(** *** What the parser returns *)

Lemma enumerated_before_asym (a b : string) :
  enumerated_before a b = true -> enumerated_before b a = false.
Proof.
  unfold enumerated_before.
  destruct (array_index a) as [n|], (array_index b) as [m|]; try discriminate;
    try reflexivity.
  intro H. apply N.ltb_lt in H. apply N.ltb_ge. lia.
Qed.

Lemma enumerated_before_trans (a b c : string) :
  enumerated_before a b = true -> enumerated_before b c = true ->
  enumerated_before a c = true.
Proof.
  unfold enumerated_before.
  destruct (array_index a) as [n|], (array_index b) as [m|],
    (array_index c) as [k|]; try discriminate; try reflexivity.
  intros H1 H2. apply N.ltb_lt in H1, H2. apply N.ltb_lt. lia.
Qed.

Lemma insert_prop_keys (k : string) (v : value) (l : list (string * value))
    (x : string) :
  In x (map fst (insert_prop k v l)) <-> x = k \/ In x (map fst l).
Proof.
  induction l as [|[k' v'] r IH]; simpl.
  - intuition.
  - destruct (enumerated_before k k'); simpl; [intuition|].
    rewrite IH. intuition.
Qed.

Lemma existsb_eqb_false (k : string) (l : list string) :
  existsb (String.eqb k) l = false <-> ~ In k l.
Proof.
  split.
  - intros H Hin.
    assert (E : existsb (String.eqb k) l = true).
    { apply existsb_exists. exists k. split; [assumption|apply String.eqb_refl]. }
    congruence.
  - intro H. destruct (existsb (String.eqb k) l) eqn:E; [|reflexivity].
    apply existsb_exists in E. destruct E as (x & Hx & E).
    apply String.eqb_eq in E. subst x. contradiction.
Qed.

Lemma distinct_insert (k : string) (v : value) (l : list (string * value)) :
  ~ In k (map fst l) ->
  distinct (map fst l) = true ->
  distinct (map fst (insert_prop k v l)) = true.
Proof.
  induction l as [|[k' v'] r IH]; intros Hn Hd; [reflexivity|].
  simpl in Hd. apply andb_true_iff in Hd. destruct Hd as [Hk Hr].
  apply negb_true_iff in Hk.
  cbn [insert_prop]. destruct (enumerated_before k k').
  - cbn [map fst distinct]. apply andb_true_iff. split.
    + apply negb_true_iff. now apply existsb_eqb_false.
    + cbn [map fst distinct] in *. simpl. now rewrite Hk, Hr.
  - cbn [map fst distinct]. apply andb_true_iff. split.
    + apply negb_true_iff, existsb_eqb_false. rewrite insert_prop_keys.
      intros [->|Hin].
      * apply Hn. now left.
      * apply existsb_eqb_false in Hk. contradiction.
    + apply IH; [|assumption]. intro; apply Hn; now right.
Qed.

Lemma in_order_insert (k : string) (v : value) (l : list (string * value)) :
  in_order (map fst l) = true ->
  in_order (map fst (insert_prop k v l)) = true.
Proof.
  induction l as [|[k' v'] r IH]; intro Ho; [reflexivity|].
  cbn [map fst in_order] in Ho. apply andb_true_iff in Ho.
  destruct Ho as [Hk Hr].
  cbn [insert_prop]. destruct (enumerated_before k k') eqn:E.
  - cbn [map fst in_order]. apply andb_true_iff. split.
    + cbn [forallb]. apply andb_true_iff. split.
      * apply negb_true_iff. now apply enumerated_before_asym.
      * rewrite forallb_forall in Hk |- *. intros y Hy.
        specialize (Hk y Hy). apply negb_true_iff in Hk. apply negb_true_iff.
        destruct (enumerated_before y k) eqn:E'; [|reflexivity].
        now rewrite (enumerated_before_trans y k k' E' E) in Hk.
    + cbn [map fst in_order] in *. now rewrite Hk, Hr.
  - cbn [map fst in_order]. apply andb_true_iff. split; [|now apply IH].
    rewrite forallb_forall in Hk |- *. intros y Hy.
    apply insert_prop_keys in Hy. destruct Hy as [->|Hy].
    + now rewrite E.
    + now apply Hk.
Qed.

Lemma replace_prop_keys (k : string) (v : value) (l : list (string * value)) :
  map fst (replace_prop k v l) = map fst l.
Proof.
  induction l as [|[k' v'] r IH]; [reflexivity|]. simpl.
  destruct (String.eqb k' k); simpl; [reflexivity|now rewrite IH].
Qed.

Lemma replace_prop_data (k : string) (v : value) (l : list (string * value)) :
  json_data v = true ->
  forallb (fun kv => json_data (snd kv)) l = true ->
  forallb (fun kv => json_data (snd kv)) (replace_prop k v l) = true.
Proof.
  intros Hv. induction l as [|[k' v'] r IH]; intro H; [reflexivity|].
  simpl in H. apply andb_true_iff in H. destruct H as [H1 H2]. simpl.
  destruct (String.eqb k' k); simpl.
  - now rewrite Hv, H2.
  - now rewrite H1, IH.
Qed.

Lemma insert_prop_data (k : string) (v : value) (l : list (string * value)) :
  json_data v = true ->
  forallb (fun kv => json_data (snd kv)) l = true ->
  forallb (fun kv => json_data (snd kv)) (insert_prop k v l) = true.
Proof.
  intros Hv. induction l as [|[k' v'] r IH]; intro H.
  - simpl. now rewrite Hv.
  - simpl in H. apply andb_true_iff in H. destruct H as [H1 H2]. simpl.
    destruct (enumerated_before k k'); simpl.
    + now rewrite Hv, H1, H2.
    + now rewrite H1, IH.
Qed.

Lemma lookup_none (k : string) (l : list (string * value)) :
  lookup k l = None -> ~ In k (map fst l).
Proof.
  induction l as [|[k' v'] r IH]; intros H Hin; [contradiction|].
  simpl in *. destruct (String.eqb_spec k' k) as [->|Hne]; [discriminate|].
  destruct Hin as [->|Hin]; [contradiction|]. now apply IH.
Qed.

(** Defining a property keeps an object as JavaScript holds it. *)
Lemma set_prop_data (k : string) (v : value) (l : list (string * value)) :
  json_data v = true ->
  json_data (VObj l) = true ->
  json_data (VObj (set_prop k v l)) = true.
Proof.
  intros Hv Hl. cbn [json_data] in *.
  apply andb_true_iff in Hl. destruct Hl as [Hl Hd].
  apply andb_true_iff in Hl. destruct Hl as [Hk Ho].
  unfold set_prop. destruct (lookup k l) eqn:E.
  - rewrite replace_prop_keys, Hk, Ho. now apply replace_prop_data.
  - rewrite distinct_insert, in_order_insert, insert_prop_data;
      try assumption; try reflexivity.
    now apply lookup_none.
Qed.

Lemma parse_elements_data (parse : string -> result (value * string)) :
  gives_data parse ->
  forall n s acc v r,
    forallb json_data acc = true ->
    parse_elements parse n s acc = Ok (v, r) -> json_data v = true.
Proof.
  intros Hp. induction n as [|n IH]; intros s acc v r Hacc H; [discriminate|].
  simpl in H. destruct (parse s) as [[x r1]|x|] eqn:E1; try discriminate.
  apply Hp in E1.
  destruct (skip_ws r1) as [|c r2]; [discriminate|].
  destruct (Ascii.eqb c ",").
  - apply IH in H; [assumption|]. simpl. now rewrite E1, Hacc.
  - destruct (Ascii.eqb c "]"); [|discriminate].
    injection H as <- _. cbn [json_data].
    rewrite forallb_forall. intros y Hy. apply in_app_or in Hy.
    destruct Hy as [Hy|[<-|[]]]; [|assumption].
    rewrite <- in_rev in Hy.
    rewrite forallb_forall in Hacc. now apply Hacc.
Qed.

Lemma parse_members_data (parse : string -> result (value * string)) :
  gives_data parse ->
  forall n s acc v r,
    json_data (VObj acc) = true ->
    parse_members parse n s acc = Ok (v, r) -> json_data v = true.
Proof.
  intros Hp. induction n as [|n IH]; intros s acc v r Hacc H; [discriminate|].
  simpl in H.
  destruct (skip_ws s) as [|q r0]; [discriminate|].
  destruct (Ascii.eqb q dquote); [|discriminate].
  destruct (parse_string_body r0) as [[k r1]|x|]; try discriminate.
  destruct (skip_ws r1) as [|c r2]; [discriminate|].
  destruct (Ascii.eqb c ":"); [|discriminate].
  destruct (parse r2) as [[x r3]|x|] eqn:E3; try discriminate.
  apply Hp in E3.
  destruct (skip_ws r3) as [|d r4]; [discriminate|].
  destruct (Ascii.eqb d ",").
  - apply IH in H; [assumption|]. now apply set_prop_data.
  - destruct (Ascii.eqb d "}"); [|discriminate].
    injection H as <- _. now apply set_prop_data.
Qed.

Lemma parse_value_data (f : nat) : gives_data (parse_value f).
Proof.
  induction f as [|f IH]; intros s v r H; [discriminate|].
  cbn [parse_value] in H.
  destruct (skip_ws s) as [|c r0]; [discriminate|].
  destruct (Ascii.eqb c "{").
  { destruct (skip_ws r0) as [|c' r']; [discriminate|].
    destruct (Ascii.eqb c' "}").
    - injection H as <- _. reflexivity.
    - now apply (parse_members_data _ IH) in H. }
  destruct (Ascii.eqb c "[").
  { destruct (skip_ws r0) as [|c' r']; [discriminate|].
    destruct (Ascii.eqb c' "]").
    - injection H as <- _. reflexivity.
    - now apply (parse_elements_data _ IH) in H. }
  destruct (Ascii.eqb c dquote).
  { destruct (parse_string_body r0) as [[t r']|x|]; try discriminate.
    injection H as <- _. reflexivity. }
  destruct (strip_prefix "true" (String c r0)) as [r'|].
  { injection H as <- _. reflexivity. }
  destruct (strip_prefix "false" (String c r0)) as [r'|].
  { injection H as <- _. reflexivity. }
  destruct (strip_prefix "null" (String c r0)) as [r'|].
  { injection H as <- _. reflexivity. }
  destruct (parse_number (String c r0)) as [[z r']|x|]; try discriminate.
  destruct (to_number z); [|discriminate].
  injection H as <- _. reflexivity.
Qed.

(** What [JSON.parse] returns is plain data. *)
Lemma JSON_parse_data (text : string) (v : value) :
  JSON_parse text = Ok v -> json_data v = true.
Proof.
  unfold JSON_parse.
  destruct (parse_value _ text) as [[x r]|x|] eqn:E; try discriminate.
  destruct (skip_ws r); [|discriminate].
  intros [= <-]. now apply (parse_value_data _ _ _ _ E).
Qed.

(** Writing what was parsed and parsing it again gives the same value. *)
Lemma JSON_parse_normal (text : string) (v : value) :
  JSON_parse text = Ok v ->
  exists t, JSON_stringify v = Some t /\ JSON_parse t = Ok v.
Proof.
  intro H. apply JSON_parse_data in H.
  exists (elem_text v). now apply JSON_parse_stringify.
Qed.



(** A property whose value is [undefined] is not written, so it is not
    read back: the restriction to data in the lemmas above is needed. *)
Lemma undefined_property_not_read_back :
  JSON_parse (interpolate (JSON_stringify (VObj [("a", VUndefined)])))
  = Ok (VObj []).
Proof. reflexivity. Qed.

(** *** Sample runs *)

Example stringify_sample :
  JSON_stringify
    (VObj [("a", VArr [VNum 1; VNum (-20); VUndefined; VStr (nl ++ "q")]);
           ("u", VUndefined); ("z", VBool true)])
  = Some ("{" ++ dq ++ "a" ++ dq ++ ":[1,-20,null," ++ dq ++ bs ++ "nq" ++ dq
          ++ "]," ++ dq ++ "z" ++ dq ++ ":true}").
Proof. reflexivity. Qed.

Example parse_sample :
  JSON_parse ("{ " ++ dq ++ "a" ++ dq ++ " : [1, -20, null, " ++ dq ++ bs
              ++ "u0041" ++ bs ++ "n" ++ dq ++ "], " ++ dq ++ "b" ++ dq
              ++ ": {} }")
  = Ok (VObj [("a", VArr [VNum 1; VNum (-20); VNull; VStr ("A" ++ nl)]);
              ("b", VObj [])]).
Proof. reflexivity. Qed.

Example parse_rejects :
  JSON_parse "01" = Throw SyntaxError
  /\ JSON_parse "[1,]" = Throw SyntaxError
  /\ JSON_parse "{" = Throw SyntaxError
  /\ JSON_parse "nul" = Throw SyntaxError
  /\ JSON_parse "" = Throw SyntaxError
  /\ JSON_parse "1 2" = Throw SyntaxError.
Proof. repeat split. Qed.

(** Numbers with a fraction or an exponent, integers that are not safe
    and code units above 255 are JSON that [JSON.parse] accepts and the
    model has no value for: it says nothing there. *)
Example parse_beyond_the_model :
  JSON_parse "1.5" = Unmodelled
  /\ JSON_parse "[1e3]" = Unmodelled
  /\ JSON_parse "9007199254740993" = Unmodelled
  /\ JSON_parse (dq ++ bs ++ "u20ac" ++ dq) = Unmodelled
  /\ JSON_parse "9007199254740991" = Ok (VNum 9007199254740991).
Proof. repeat split. Qed.

(** Keys that are array indices are enumerated first, in ascending order,
    whatever their place in the text; a key given twice keeps its first
    place and its last value. *)
Example parse_orders_keys :
  JSON_parse ("{" ++ dq ++ "b" ++ dq ++ ":1," ++ dq ++ "10" ++ dq ++ ":2,"
              ++ dq ++ "9" ++ dq ++ ":3," ++ dq ++ "a" ++ dq ++ ":4,"
              ++ dq ++ "b" ++ dq ++ ":5," ++ dq ++ "01" ++ dq ++ ":6}")
  = Ok (VObj [("9", VNum 3); ("10", VNum 2); ("b", VNum 5); ("a", VNum 4);
              ("01", VNum 6)]).
Proof. reflexivity. Qed.

Example splice_samples :
  Array_splice [1; 2; 3] 1 1 = [1; 3]
  /\ Array_splice [1; 2; 3] (-1) 1 = [1; 2]
  /\ Array_splice [1; 2; 3] 7 1 = [1; 2; 3]
  /\ Array_splice ([] : list Z) (-1) 1 = []
  /\ Array_indexOf Z.eqb [1; 2; 3; 2] 2 = 1
  /\ Array_indexOf Z.eqb [1; 2; 3] 9 = -1.
Proof. repeat split. Qed.

End JSONFacts.

(** ** The connection list and the relay *)

Module SocketFacts.
Import Sockets.

Lemma emitted_io_sockets_emit (pk : packet) (st : server) :
  emitted st (io_sockets_emit pk st) = map (fun c => (c, pk)) (sockets st).
Proof.
  unfold emitted, io_sockets_emit. simpl.
  rewrite skipn_app, skipn_all, Nat.sub_diag. reflexivity.
Qed.

Lemma emitted_nothing (st : server) : emitted st st = [].
Proof. unfold emitted. apply skipn_all. Qed.

(** A value whose [type] can be read lets every property be read. *)
Lemma get_total (action t : value) (f : string) :
  get action "type" = Ok t -> exists v, get action f = Ok v.
Proof.
  destruct action; simpl; intro H; try discriminate; eauto.
Qed.

(** The three tests in a row amount to one lookup in the table. *)
Lemma on_action_table (s : socket) (action t : value) (st : server) :
  get action "type" = Ok t ->
  on_action s action st =
  match t with
  | VStr k =>
      match public_kind k with
      | Some (pub, field) =>
          payload <- get action field ;;
          Ok (io_sockets_emit (translated pub field payload) st)
      | None => Ok st
      end
  | _ => Ok st
  end.
Proof.
  intro Ht. unfold on_action. rewrite Ht. simpl bind.
  destruct t as [ | |b|n|k|l|l]; try reflexivity.
  unfold strict_eq_str, public_kind.
  destruct (String.eqb k "server/addPost") eqn:E1.
  { apply String.eqb_eq in E1. subst k. simpl.
    destruct (get action "post"); reflexivity. }
  destruct (String.eqb k "server/updatePost") eqn:E2.
  { apply String.eqb_eq in E2. subst k. simpl.
    destruct (get action "post"); reflexivity. }
  destruct (String.eqb k "server/addComment") eqn:E3.
  { apply String.eqb_eq in E3. subst k. simpl.
    destruct (get action "comment"); reflexivity. }
  reflexivity.
Qed.

Lemma on_action_known (s : socket) (action : value) (st : server)
    (k pub field : string) :
  get action "type" = Ok (VStr k) ->
  public_kind k = Some (pub, field) ->
  exists payload,
    get action field = Ok payload
    /\ on_action s action st = Ok (io_sockets_emit (translated pub field payload) st).
Proof.
  intros Ht Hk. destruct (get_total action _ field Ht) as [payload Hp].
  exists payload. split; [assumption|].
  rewrite (on_action_table s action _ st Ht), Hk, Hp. reflexivity.
Qed.

Lemma not_recognized_no_public_kind (k : string) :
  ~ In (VStr k) recognized -> public_kind k = None.
Proof.
  intro H. unfold public_kind.
  destruct (String.eqb k "server/addPost") eqn:E1.
  { apply String.eqb_eq in E1. subst. exfalso. apply H. simpl. auto. }
  destruct (String.eqb k "server/updatePost") eqn:E2.
  { apply String.eqb_eq in E2. subst. exfalso. apply H. simpl. auto. }
  destruct (String.eqb k "server/addComment") eqn:E3.
  { apply String.eqb_eq in E3. subst. exfalso. apply H. simpl. auto. }
  reflexivity.
Qed.

(** The [action] handler leaves both lists of sockets alone. *)
Lemma on_action_frame (s : socket) (action : value) (st st' : server) :
  on_action s action st = Ok st' ->
  clients st' = clients st /\ sockets st' = sockets st.
Proof.
  destruct (get action "type") as [t|e|] eqn:Ht.
  - rewrite (on_action_table s action t st Ht).
    destruct t as [ | |b|n|k|l|l]; try (intros [= <-]; now split).
    destruct (public_kind k) as [[pub field]|]; [|intros [= <-]; now split].
    destruct (get action field); simpl; try discriminate.
    intros [= <-]. now split.
  - unfold on_action. rewrite Ht. discriminate.
  - unfold on_action. rewrite Ht. discriminate.
Qed.

Lemma filter_out_absent (l : list socket) (s : socket) :
  ~ In s l -> filter (fun c => negb (String.eqb c s)) l = l.
Proof.
  induction l as [|y r IH]; intro H; simpl; [reflexivity|].
  destruct (String.eqb_spec y s) as [->|_].
  - exfalso. apply H. now left.
  - simpl. rewrite IH; [reflexivity|]. intro; apply H; now right.
Qed.

Lemma filter_out_once (l1 l2 : list socket) (s : socket) :
  ~ In s l1 -> ~ In s l2 ->
  filter (fun c => negb (String.eqb c s)) (l1 ++ s :: l2) = (l1 ++ l2)%list.
Proof.
  intros H1 H2. rewrite filter_app. simpl.
  rewrite String.eqb_refl. simpl.
  now rewrite !filter_out_absent.
Qed.

(** In the states the server goes through, the array of the file and the
    sockets socket.io holds connected are the same list, without
    repetition. *)
Lemma reachable_clients (st : server) :
  reachable st -> clients st = sockets st /\ NoDup (clients st).
Proof.
  induction 1 as [|i st st' Hr [IHeq IHnd] Hadm Hstep].
  - split; [reflexivity|constructor].
  - destruct i as [s|s|s pk]; simpl in Hadm, Hstep.
    + injection Hstep as <-. simpl. unfold Array_push.
      destruct Hadm as [_ Hn]. split; [now rewrite IHeq|].
      apply NoDup_app; [assumption|repeat constructor; intros []| ].
      intros x Hx [<-|[]]. contradiction.
    + injection Hstep as <-. unfold on_disconnect. simpl.
      rewrite <- IHeq in Hadm |- *.
      destruct (in_first_occurrence String.eqb String.eqb_eq _ _ Hadm)
        as (l1 & l2 & E & Hn1).
      rewrite E in IHnd |- *.
      assert (Hn2 : ~ In s l2).
      { apply NoDup_remove_2 in IHnd. intro; apply IHnd, in_or_app; now right. }
      rewrite (splice_indexOf_first String.eqb String.eqb_eq) by assumption.
      rewrite filter_out_once by assumption.
      split; [reflexivity|]. now apply NoDup_remove_1 in IHnd.
    + assert (F : clients st' = clients st /\ sockets st' = sockets st).
      { destruct (String.eqb (event pk) "action");
          [now apply on_action_frame in Hstep|].
        destruct (String.eqb (event pk) "refresh bloglist");
          [injection Hstep as <-; now split|].
        destruct (String.eqb (event pk) "refresh commentlist");
          injection Hstep as <-; now split. }
      destruct F as [-> ->]. now split.
Qed.

Lemma recipient_absent (l : list socket) (pk : packet) (c : socket) :
  ~ In c l ->
  filter (fun x => String.eqb (fst x) c) (map (fun c' => (c', pk)) l) = [].
Proof.
  induction l as [|y r IH]; intro H; simpl; [reflexivity|].
  destruct (String.eqb_spec y c) as [->|_].
  - exfalso. apply H. now left.
  - apply IH. intro; apply H; now right.
Qed.

Lemma recipient_once (l : list socket) (pk : packet) (c : socket) :
  NoDup l -> In c l ->
  filter (fun x => String.eqb (fst x) c) (map (fun c' => (c', pk)) l) = [(c, pk)].
Proof.
  induction 1 as [|y r Hy Hnd IH]; intro Hin; [contradiction|]. simpl.
  destruct (String.eqb_spec y c) as [->|Hne].
  - now rewrite recipient_absent.
  - destruct Hin as [->|Hin]; [contradiction|]. now apply IH.
Qed.

Lemma reachable_three_clients : reachable three_clients.
Proof.
  apply (reachable_step (Connection "C")
           {| clients := ["A"; "B"]; sockets := ["A"; "B"]; outbox := [] |});
    [|simpl; intuition discriminate|reflexivity].
  apply (reachable_step (Connection "B")
           {| clients := ["A"]; sockets := ["A"]; outbox := [] |});
    [|simpl; intuition discriminate|reflexivity].
  apply (reachable_step (Connection "A") initial);
    [apply reachable_initial|simpl; intuition|reflexivity].
Qed.

(** The general shape of the slip behind the failing disconnect: a socket
    that is not in the array gives index -1, and [splice(-1, 1)] takes out
    the last element. *)
Lemma on_disconnect_absent (s : socket) (st : server) :
  ~ In s (clients st) ->
  clients (on_disconnect s st) = removelast (clients st).
Proof.
  intro H. unfold on_disconnect. simpl.
  now apply (splice_indexOf_absent String.eqb String.eqb_eq).
Qed.

(** Reading the kind of [null] or of [undefined] throws. *)
Lemma on_action_nullish (s : socket) (st : server) :
  on_action s VNull st = Throw TypeError
  /\ on_action s VUndefined st = Throw TypeError.
Proof. split; reflexivity. Qed.

(** C1, as the code has it.  In every state the server goes through, a
    mutation event of one of the three kinds sent by a client [a] of the
    list is translated and emitted once to every client of the list,
    the sender [a] included; a socket outside the list receives nothing. *)
Theorem action_relayed_to_every_client
    (st : server) (a : socket) (action : value) (k pub field : string) :
  reachable st ->
  In a (clients st) ->
  get action "type" = Ok (VStr k) ->
  public_kind k = Some (pub, field) ->
  exists payload st',
    get action field = Ok payload
    /\ on_action a action st = Ok st'
    /\ (forall c, In c (clients st) ->
          delivered_to c st st' = [translated pub field payload])
    /\ delivered_to a st st' = [translated pub field payload]
    /\ (forall c, ~ In c (clients st) -> delivered_to c st st' = []).
Proof.
  intros Hr Ha Ht Hk.
  destruct (on_action_known a action st k pub field Ht Hk) as (payload & Hp & Hrun).
  destruct (reachable_clients st Hr) as [Heq Hnd].
  exists payload, (io_sockets_emit (translated pub field payload) st).
  assert (D : forall c, In c (clients st) ->
            delivered_to c st (io_sockets_emit (translated pub field payload) st)
            = [translated pub field payload]).
  { intros c Hc. unfold delivered_to. rewrite emitted_io_sockets_emit.
    rewrite <- Heq. now rewrite recipient_once. }
  repeat split; auto.
  intros c Hc. unfold delivered_to. rewrite emitted_io_sockets_emit.
  rewrite <- Heq. now rewrite recipient_absent.
Qed.

Lemma action_relayed_to_every_client_witness :
  exists payload st',
    get add_post_7 "post" = Ok payload
    /\ on_action "A" add_post_7 three_clients = Ok st'
    /\ (forall c, In c (clients three_clients) ->
          delivered_to c three_clients st' = [translated "ADD_POST" "post" payload])
    /\ delivered_to "A" three_clients st' = [translated "ADD_POST" "post" payload]
    /\ (forall c, ~ In c (clients three_clients) ->
          delivered_to c three_clients st' = []).
Proof.
  apply (action_relayed_to_every_client three_clients "A" add_post_7
           "server/addPost" "ADD_POST" "post").
  - exact reachable_three_clients.
  - simpl. auto.
  - reflexivity.
  - reflexivity.
Defined.

(** C1, as stated, fails: with A, B and C connected, the event
    [{type: 'server/addPost', post: {id: 7}}] sent by A comes back to A. *)
Lemma add_post_echoed_to_sender :
  reachable three_clients
  /\ In "A" (clients three_clients)
  /\ delivered_to "A" three_clients
       (io_sockets_emit (translated "ADD_POST" "post" (VObj [("id", VNum 7)]))
          three_clients)
     = [translated "ADD_POST" "post" (VObj [("id", VNum 7)])]
  /\ ~ relayed_to_others_only three_clients "A" add_post_7.
Proof.
  split; [exact reachable_three_clients|].
  split; [simpl; auto|].
  split; [reflexivity|].
  intro H. destruct (H _ eq_refl) as [_ H']. discriminate H'.
Qed.

(** C5, as the code has it.  An event whose kind can be read, which is
    every event but [null] and [undefined], and is not one of the three
    recognized kinds leaves the server as it was: the handler returns
    without an error and nothing is emitted to any socket.  For [null]
    and for [undefined] reading the kind throws a TypeError, and nothing
    is emitted there either. *)
Theorem unrecognized_kind_ignored
    (s : socket) (action t : value) (st : server) :
  get action "type" = Ok t ->
  ~ In t recognized ->
  (on_action s action st = Ok st
   /\ emitted st st = []
   /\ forall c, delivered_to c st st = [])
  /\ (forall a, a <> VNull -> a <> VUndefined -> exists t', get a "type" = Ok t')
  /\ (forall a, a = VNull \/ a = VUndefined ->
        on_action s a st = Throw TypeError /\ targets s a st = []).
Proof.
  intros Ht Hn.
  split; [split; [|split; [apply emitted_nothing|]]|split].
  - rewrite (on_action_table s action t st Ht).
    destruct t as [ | |b|n|k|l|l]; try reflexivity.
    now rewrite not_recognized_no_public_kind.
  - intro c. unfold delivered_to. now rewrite emitted_nothing.
  - intros a H1 H2. destruct a; simpl; eauto; contradiction.
  - intros a [->| ->]; split; reflexivity.
Qed.

Lemma unrecognized_kind_ignored_witness :
  (on_action "A" (VObj [("type", VStr "server/deletePost")]) three_clients
   = Ok three_clients
   /\ emitted three_clients three_clients = []
   /\ forall c, delivered_to c three_clients three_clients = [])
  /\ (forall a, a <> VNull -> a <> VUndefined -> exists t', get a "type" = Ok t')
  /\ (forall a, a = VNull \/ a = VUndefined ->
        on_action "A" a three_clients = Throw TypeError
        /\ targets "A" a three_clients = []).
Proof.
  apply (unrecognized_kind_ignored "A"
           (VObj [("type", VStr "server/deletePost")])
           (VStr "server/deletePost") three_clients).
  - reflexivity.
  - simpl. intros [H|[H|[H|[]]]]; discriminate H.
Defined.

(** C5, as stated, fails: [null] is an event a client can send, it has
    none of the recognized kinds, and the handler throws a TypeError for
    it while A, B and C are connected. *)
Lemma null_event_throws :
  unrecognized VNull
  /\ on_action "A" VNull three_clients = Throw TypeError
  /\ dispatch (Event "A" {| event := "action"; args := [VNull] |}) three_clients
     = Throw TypeError
  /\ ~ ignored_silently three_clients "A" VNull.
Proof.
  split; [intros t H; discriminate H|].
  split; [reflexivity|]. split; [reflexivity|].
  intro H. discriminate H.
Qed.

(** C6, where the code departs from it.  A, B and C are in the list and
    the disconnect handler runs for a socket that is not: the index is -1,
    [splice(-1, 1)] takes C out, and the list is not what it was. *)
Theorem absent_disconnect_drops_last :
  ~ In "Z" (clients three_clients)
  /\ Array_indexOf String.eqb (clients three_clients) "Z" = -1
  /\ clients (on_disconnect "Z" three_clients) = ["A"; "B"]
  /\ ~ absent_disconnect_is_noop three_clients "Z".
Proof.
  assert (Hn : ~ In "Z" (clients three_clients)).
  { simpl. intros [H|[H|[H|[]]]]; discriminate H. }
  split; [exact Hn|].
  split; [reflexivity|].
  split; [reflexivity|].
  intro H. specialize (H Hn). discriminate H.
Qed.

(** C9, as the code has it.  In a state the server goes through, a new
    connection [h] that is registered and then unregistered leaves the
    server as it was, the list without [h]; and the recipients of a
    mutation event sent by a connected socket [o] are all the connected
    sockets, [o] among them: the handler emits through [io.sockets] and
    leaves nobody out. *)
Theorem register_then_unregister_restores
    (st : server) (h o : socket) (action : value) (k pub field : string) :
  reachable st ->
  ~ In h (sockets st) ->
  In o (sockets st) ->
  get action "type" = Ok (VStr k) ->
  public_kind k = Some (pub, field) ->
  (exists st1,
     dispatch (Connection h) st = Ok st1
     /\ In h (clients st1)
     /\ dispatch (Disconnect h) st1 = Ok st)
  /\ clients (on_disconnect h (on_connection h st)) = clients st
  /\ gone_after_disconnect st h
  /\ targets o action st = sockets st
  /\ In o (targets o action st).
Proof.
  intros Hr Hh Ho Ht Hk.
  destruct (reachable_clients st Hr) as [Heq _].
  assert (Hn : ~ In h (clients st)) by now rewrite Heq.
  assert (E : clients (on_disconnect h (on_connection h st)) = clients st).
  { unfold on_disconnect, on_connection. simpl.
    now apply (push_then_remove String.eqb String.eqb_eq). }
  split; [|split; [exact E|split]].
  - eexists. split; [reflexivity|]. split.
    + simpl. unfold Array_push. apply in_or_app. right. now left.
    + simpl. f_equal. unfold on_disconnect, on_connection. simpl.
      rewrite (push_then_remove String.eqb String.eqb_eq) by assumption.
      rewrite filter_app, filter_out_absent by assumption. simpl.
      rewrite String.eqb_refl. simpl. rewrite app_nil_r.
      now destruct st.
  - unfold gone_after_disconnect. now rewrite E.
  - destruct (on_action_known o action st k pub field Ht Hk) as (payload & _ & Hrun).
    assert (T : targets o action st = sockets st).
    { unfold targets. rewrite Hrun, emitted_io_sockets_emit, map_map. simpl.
      apply map_id. }
    split; [exact T|]. now rewrite T.
Qed.

Lemma register_then_unregister_restores_witness :
  (exists st1,
     dispatch (Connection "D") three_clients = Ok st1
     /\ In "D" (clients st1)
     /\ dispatch (Disconnect "D") st1 = Ok three_clients)
  /\ clients (on_disconnect "D" (on_connection "D" three_clients))
     = clients three_clients
  /\ gone_after_disconnect three_clients "D"
  /\ targets "A" add_post_7 three_clients = sockets three_clients
  /\ In "A" (targets "A" add_post_7 three_clients).
Proof.
  apply (register_then_unregister_restores three_clients "D" "A" add_post_7
           "server/addPost" "ADD_POST" "post").
  - exact reachable_three_clients.
  - simpl. intros [H|[H|[H|[]]]]; discriminate H.
  - simpl. auto.
  - reflexivity.
  - reflexivity.
Defined.

(** C9, as stated, fails on its second half: with A, B and C connected,
    the recipients of a mutation event sent by A are A, B and C. *)
Lemma origin_is_a_target :
  reachable three_clients
  /\ In "A" (sockets three_clients)
  /\ targets "A" add_post_7 three_clients = ["A"; "B"; "C"]
  /\ ~ origin_not_a_target three_clients "A" add_post_7.
Proof.
  split; [exact reachable_three_clients|]. split; [simpl; auto|].
  split; [reflexivity|].
  intro H. apply H. simpl. auto.
Qed.

(** C10, as the code has it.  The events [refresh bloglist] and
    [refresh commentlist] are emitted again under the same name to every
    connected socket, the sender included, and without the arguments they
    came with: the two handlers take no parameter. *)
Theorem refresh_events_relayed_to_all (s : socket) (st : server)
    (l : list value) :
  In s (sockets st) ->
  let bloglist := {| event := "refresh bloglist"; args := [] |} in
  let commentlist := {| event := "refresh commentlist"; args := [] |} in
  dispatch (Event s {| event := "refresh bloglist"; args := l |}) st
  = Ok (on_refresh_bloglist s st)
  /\ dispatch (Event s {| event := "refresh commentlist"; args := l |}) st
     = Ok (on_refresh_commentlist s st)
  /\ emitted st (on_refresh_bloglist s st)
     = map (fun c => (c, bloglist)) (sockets st)
  /\ emitted st (on_refresh_commentlist s st)
     = map (fun c => (c, commentlist)) (sockets st)
  /\ In (s, bloglist) (emitted st (on_refresh_bloglist s st))
  /\ In (s, commentlist) (emitted st (on_refresh_commentlist s st)).
Proof.
  intros Hs bloglist commentlist.
  assert (B : emitted st (on_refresh_bloglist s st)
              = map (fun c => (c, bloglist)) (sockets st))
    by apply emitted_io_sockets_emit.
  assert (Cm : emitted st (on_refresh_commentlist s st)
               = map (fun c => (c, commentlist)) (sockets st))
    by apply emitted_io_sockets_emit.
  repeat split; try reflexivity; try assumption.
  - rewrite B. now apply (in_map (fun c => (c, bloglist))).
  - rewrite Cm. now apply (in_map (fun c => (c, commentlist))).
Qed.

Lemma refresh_events_relayed_to_all_witness :
  let bloglist := {| event := "refresh bloglist"; args := [] |} in
  let commentlist := {| event := "refresh commentlist"; args := [] |} in
  dispatch (Event "A" {| event := "refresh bloglist";
                         args := [VStr "posts"; VNum 7] |}) three_clients
  = Ok (on_refresh_bloglist "A" three_clients)
  /\ dispatch (Event "A" {| event := "refresh commentlist";
                            args := [VStr "posts"; VNum 7] |}) three_clients
     = Ok (on_refresh_commentlist "A" three_clients)
  /\ emitted three_clients (on_refresh_bloglist "A" three_clients)
     = map (fun c => (c, bloglist)) (sockets three_clients)
  /\ emitted three_clients (on_refresh_commentlist "A" three_clients)
     = map (fun c => (c, commentlist)) (sockets three_clients)
  /\ In ("A", bloglist) (emitted three_clients (on_refresh_bloglist "A" three_clients))
  /\ In ("A", commentlist)
       (emitted three_clients (on_refresh_commentlist "A" three_clients)).
Proof.
  apply (refresh_events_relayed_to_all "A" three_clients [VStr "posts"; VNum 7]).
  simpl. auto.
Defined.

(** C10, as stated, fails: a refresh event that carries arguments is not
    emitted again as it was received; with A, B and C connected, what the
    three of them get for [refresh bloglist] sent with [7] has no
    argument. *)
Lemma refresh_arguments_not_relayed :
  dispatch (Event "A" {| event := "refresh bloglist"; args := [VNum 7] |})
    three_clients
  = Ok (io_sockets_emit {| event := "refresh bloglist"; args := [] |}
          three_clients)
  /\ delivered_to "B" three_clients
       (io_sockets_emit {| event := "refresh bloglist"; args := [] |}
          three_clients)
     = [{| event := "refresh bloglist"; args := [] |}]
  /\ ~ reemitted_verbatim three_clients "A"
         {| event := "refresh bloglist"; args := [VNum 7] |}.
Proof.
  split; [reflexivity|]. split; [reflexivity|].
  intros (st' & H & Hall). injection H as <-.
  specialize (Hall "A" ltac:(simpl; auto)).
  simpl in Hall. destruct Hall as [H|[H|[H|[]]]]; discriminate H.
Qed.

End SocketFacts.

(** ** The page assembler and the middleware *)

Module RenderFacts.
Import Render JSONFacts.

(** The template, with what depends on the environment resolved first. *)
Lemma template_resolved (e : environment) (h : head) (html : string)
    (state : value) :
  template e h html state
  = (a <- resolve_assets e ;;
     Ok (before_snapshot h a html ++ interpolate (JSON_stringify state)
         ++ after_snapshot (production e) a)).
Proof.
  unfold template, resolve_assets, before_snapshot, after_snapshot, inline_script.
  destruct (load_manifest (webpackAssets e)) as [am|x|]; try reflexivity.
  destruct (load_manifest (webpackChunkAssets e)) as [cm|x|]; try reflexivity.
  cbn [bind]. destruct (production e).
  - destruct (get am "/app.css") as [css|x|]; try reflexivity. cbn [bind].
    destruct (get am "/vendor.js") as [v|x|]; try reflexivity. cbn [bind].
    destruct (get am "/app.js") as [a|x|]; try reflexivity. cbn [bind].
    cbn [stylesheet chunks vendor app]. now rewrite !append_assoc.
  - cbn [bind]. cbn [stylesheet chunks vendor app]. now rewrite !append_assoc.
Qed.

Lemma renderFullPage_resolved (html : string) (state : value) (p : process)
    (a : assets) :
  resolve_assets (env p) = Ok a ->
  renderFullPage html state p
  = (Ok (before_snapshot (fst (Helmet_rewind p)) a html
         ++ interpolate (JSON_stringify state)
         ++ after_snapshot (production (env p)) a),
     snd (Helmet_rewind p)).
Proof.
  intro H. unfold renderFullPage. simpl.
  now rewrite template_resolved, H.
Qed.

Lemma after_snapshot_delimited (prod : bool) (a : assets) :
  delimited (after_snapshot prod a) = true.
Proof. reflexivity. Qed.

(** What [QuoteJSONString] leaves as it is. *)
Lemma escape_code_unit_plain (c : ascii) :
  (32 <=? N_of_ascii c)%N = true ->
  Ascii.eqb c dquote = false ->
  Ascii.eqb c backslash = false ->
  escape_code_unit c = String c "".
Proof.
  destruct c as [[] [] [] [] [] [] [] []]; intros H1 H2 H3;
    try discriminate; reflexivity.
Qed.

(** [Helmet.rewind()] and the assembler leave the environment and
    [global.navigator] alone; they empty the Helmet singleton. *)
Lemma renderFullPage_frame (html : string) (state : value) (p : process) :
  let p' := snd (renderFullPage html state p) in
  env p' = env p /\ navigator p' = navigator p /\ helmet_recorded p' = None
  /\ trace p' = (trace p ++ [Call_Helmet_rewind])%list.
Proof. repeat split. Qed.

(** C7, as the code has it.  The document is a function of the markup,
    the snapshot, the environment and the head fragments that
    [Helmet.rewind()] hands over: two processes that agree on the
    environment and on those fragments get the same document for the same
    markup and snapshot.  The call reads the Helmet singleton and resets
    it; it writes nothing else. *)
Theorem assembler_determined_with_head
    (html : string) (state : value) (p1 p2 : process) :
  env p1 = env p2 ->
  fst (Helmet_rewind p1) = fst (Helmet_rewind p2) ->
  fst (renderFullPage html state p1) = fst (renderFullPage html state p2)
  /\ helmet_recorded (snd (renderFullPage html state p1)) = None
  /\ env (snd (renderFullPage html state p1)) = env p1
  /\ navigator (snd (renderFullPage html state p1)) = navigator p1.
Proof.
  intros He Hh. split; [|repeat split].
  unfold renderFullPage.
  destruct (Helmet_rewind p1) as [h1 q1] eqn:E1.
  destruct (Helmet_rewind p2) as [h2 q2] eqn:E2.
  simpl in Hh. subst h2. simpl.
  assert (env q1 = env p1) by (injection E1 as _ <-; reflexivity).
  assert (env q2 = env p2) by (injection E2 as _ <-; reflexivity).
  congruence.
Qed.

Lemma assembler_determined_with_head_witness :
  fst (renderFullPage "<h1>X</h1>" post_42_state rendered_once)
  = fst (renderFullPage "<h1>X</h1>" post_42_state
           (set_navigator (VStr "other") rendered_once))
  /\ helmet_recorded (snd (renderFullPage "<h1>X</h1>" post_42_state rendered_once))
     = None
  /\ env (snd (renderFullPage "<h1>X</h1>" post_42_state rendered_once))
     = env rendered_once
  /\ navigator (snd (renderFullPage "<h1>X</h1>" post_42_state rendered_once))
     = navigator rendered_once.
Proof.
  apply (assembler_determined_with_head "<h1>X</h1>" post_42_state
           rendered_once (set_navigator (VStr "other") rendered_once));
    reflexivity.
Defined.

(** C7, as stated, fails: the same markup, snapshot and environment give
    two documents when the Helmet singleton differs, and the second of two
    calls in a row does not give the document of the first. *)
Lemma head_fragments_are_an_input :
  env rendered_once = env idle
  /\ fst (renderFullPage "" (VObj []) rendered_once)
     <> fst (renderFullPage "" (VObj []) idle)
  /\ fst (renderFullPage "" (VObj [])
            (snd (renderFullPage "" (VObj []) rendered_once)))
     <> fst (renderFullPage "" (VObj []) rendered_once)
  /\ ~ pure_in_its_inputs.
Proof.
  assert (D : fst (renderFullPage "" (VObj []) rendered_once)
              <> fst (renderFullPage "" (VObj []) idle)).
  { intro H. vm_compute in H. discriminate H. }
  split; [reflexivity|]. split; [exact D|]. split.
  - intro H. vm_compute in H. discriminate H.
  - intro H. apply D. now apply H.
Qed.

(** C8.  When the router reports a redirect and no error, the middleware
    answers with a 302 redirect to the pathname followed by the query, and
    leaves the process as it found it: no store is configured, nothing is
    fetched, nothing is rendered. *)
Theorem redirect_route_redirects (C P : Type)
    (match_ : string -> value * option location * option (renderProps C P))
    (configureStore : value)
    (fetchComponentData : value -> C -> P -> result value)
    (renderToString : value -> value -> renderProps C P -> rendering)
    (req : request) (p : process) (err : value) (loc : location)
    (props : option (renderProps C P)) :
  match_ (url req) = (err, Some loc, props) ->
  truthy err = false ->
  ssr C P match_ configureStore fetchComponentData renderToString req p
  = (Ok (Redirect 302 (pathname loc ++ search loc)), p)
  /\ trace (snd (ssr C P match_ configureStore fetchComponentData
                   renderToString req p)) = trace p.
Proof.
  intros Hm He.
  assert (E : ssr C P match_ configureStore fetchComponentData renderToString req p
              = (Ok (Redirect 302 (pathname loc ++ search loc)), p)).
  { unfold ssr. rewrite Hm. unfold on_match. now rewrite He. }
  split; [exact E|]. now rewrite E.
Qed.

Lemma redirect_route_redirects_witness :
  ssr unit unit match_redirect (VObj []) fetch_ok render_ok get_post_42 idle
  = (Ok (Redirect 302 ("/posts" ++ "?page=2")), idle)
  /\ trace (snd (ssr unit unit match_redirect (VObj []) fetch_ok render_ok
                   get_post_42 idle)) = trace idle.
Proof.
  apply (redirect_route_redirects unit unit match_redirect (VObj []) fetch_ok
           render_ok get_post_42 idle VNull
           {| pathname := "/posts"; search := "?page=2" |} None);
    reflexivity.
Defined.

(** On a matched route the store is configured and the fetch is started:
    the trace of the redirect above is not empty for want of recording. *)
Lemma matched_route_fetches (C P : Type) (configureStore : value)
    (fetchComponentData : value -> C -> P -> result value)
    (renderToString : value -> value -> renderProps C P -> rendering)
    (req : request) (p : process) (err : value) (rp : renderProps C P) :
  truthy err = false ->
  exists rest,
    trace (snd (on_match C P configureStore fetchComponentData renderToString
                  req err None (Some rp) p))
    = (trace p ++ Call_configureStore :: Call_fetchComponentData :: rest)%list.
Proof.
  intro He. unfold on_match. rewrite He.
  destruct (fetchComponentData _ _ _) as [fetched|e|]; simpl.
  - destruct (outcome (renderToString _ _ _)) as [r|e|]; simpl.
    + destruct (template _ _ _ _); simpl;
        exists [Call_renderToString; Call_Helmet_rewind];
        now rewrite <- !app_assoc.
    + exists [Call_renderToString]. now rewrite <- !app_assoc.
    + exists [Call_renderToString]. now rewrite <- !app_assoc.
  - exists []. now rewrite <- !app_assoc.
  - exists []. now rewrite <- !app_assoc.
Qed.

(** C2, as the code has it.  When the route matches and the prefetch is
    rejected, the middleware sends nothing itself: it hands the rejection
    to the next handler with [next(error)].  No document is assembled
    (Helmet is not rewound) and nothing is rendered. *)
Theorem prefetch_failure_goes_to_next (C P : Type) (configureStore : value)
    (fetchComponentData : value -> C -> P -> result value)
    (renderToString : value -> value -> renderProps C P -> rendering)
    (req : request) (p : process) (err : value) (rp : renderProps C P)
    (e : exn) :
  truthy err = false ->
  fetchComponentData configureStore (components rp) (params rp) = Throw e ->
  let out := on_match C P configureStore fetchComponentData renderToString
               req err None (Some rp) p in
  fst out = Ok (Next (Some e))
  /\ trace (snd out)
     = (trace p ++ [Call_configureStore; Call_fetchComponentData])%list
  /\ helmet_recorded (snd out) = helmet_recorded p
  /\ helmet_mounted (snd out) = helmet_mounted p.
Proof.
  intros He Hf out. unfold out, on_match. rewrite He, Hf. simpl.
  repeat split. now rewrite <- app_assoc.
Qed.

Lemma prefetch_failure_goes_to_next_witness :
  let out := on_match unit unit (VObj []) fetch_rejected render_ok
               get_post_42 VNull None (Some post_route) idle in
  fst out = Ok (Next (Some (Rejected (VStr "ECONNREFUSED"))))
  /\ trace (snd out)
     = (trace idle ++ [Call_configureStore; Call_fetchComponentData])%list
  /\ helmet_recorded (snd out) = helmet_recorded idle
  /\ helmet_mounted (snd out) = helmet_mounted idle.
Proof.
  apply (prefetch_failure_goes_to_next unit unit (VObj []) fetch_rejected
           render_ok get_post_42 idle VNull post_route
           (Rejected (VStr "ECONNREFUSED")));
    reflexivity.
Defined.

(** C2, as stated, fails: with a rejected prefetch the middleware sends no
    500 response and no document. *)
Lemma rejected_prefetch_sends_nothing :
  fst (on_match unit unit (VObj []) fetch_rejected render_ok
         get_post_42 VNull None (Some post_route) idle)
  = Ok (Next (Some (Rejected (VStr "ECONNREFUSED"))))
  /\ ~ answers_500_with_empty_state
         (on_match unit unit (VObj []) fetch_rejected render_ok
            get_post_42 VNull None (Some post_route) idle).
Proof.
  split; [reflexivity|].
  intros (ct & doc & H & _). discriminate H.
Qed.

(** The error page with its 500 status and its empty snapshot is what a
    route resolution error gets, whenever the page can be assembled. *)
Lemma route_error_answers_500 (C P : Type) (configureStore : value)
    (fetchComponentData : value -> C -> P -> result value)
    (renderToString : value -> value -> renderProps C P -> rendering)
    (req : request) (p : process) (err : value) (t : string) (a : assets)
    (redirectLocation : option location) (props : option (renderProps C P)) :
  truthy err = true ->
  errTrace (env p) err = Ok t ->
  resolve_assets (env p) = Ok a ->
  fst (on_match C P configureStore fetchComponentData renderToString
         req err redirectLocation props p)
  = Ok (Sent 500 None
          (before_snapshot (fst (Helmet_rewind p)) a ("Server Error" ++ t)
           ++ "{}" ++ after_snapshot (production (env p)) a)).
Proof.
  intros He Ht Ha. unfold on_match, renderError. rewrite He, Ht.
  now rewrite (renderFullPage_resolved _ _ p a Ha).
Qed.

(** C3, as the code has it.  The assembler writes the output of
    [JSON.stringify] into the inline script as it is.  That output escapes
    the quote, the backslash and the control characters of a string and
    nothing else, so the closing tag of a script inside a string of the
    snapshot is in the document as it stands. *)
Theorem snapshot_embedded_as_serialized
    (e : environment) (h : head) (html : string) (state : value) :
  template e h html state
  = (a <- resolve_assets e ;;
     Ok (before_snapshot h a html ++ interpolate (JSON_stringify state)
         ++ after_snapshot (production e) a))
  /\ (forall c : ascii,
        (32 <=? N_of_ascii c)%N = true ->
        Ascii.eqb c dquote = false ->
        Ascii.eqb c backslash = false ->
        escape_code_unit c = String c "")
  /\ (forall a b : string,
        JSON_stringify (VStr (a ++ "</script>" ++ b))
        = Some (dq ++ escape_string a ++ "</script>" ++ escape_string b ++ dq)).
Proof.
  split; [apply template_resolved|].
  split; [apply escape_code_unit_plain|apply quote_keeps_closing_tag].
Qed.

(** C3, as stated, fails: a title that holds a closing tag is serialized
    with it, and the document served for that snapshot has the tag inside
    its inline script, right after the global-state binding. *)
Lemma closing_tag_reaches_document :
  ~ snapshot_cannot_close_script hostile_state
  /\ match fst (renderFullPage "" hostile_state idle) with
     | Ok doc =>
         contains
           ("window.__INITIAL_STATE__ = {" ++ dq ++ "title" ++ dq ++ ":" ++ dq
            ++ "</script><script>alert(1)</script>" ++ dq ++ "};") doc
         = true
     | Throw _ | Unmodelled => False
     end.
Proof.
  split.
  - intro H. vm_compute in H. discriminate H.
  - vm_compute. reflexivity.
Qed.

(** The head fragments the assembler gets after a render. *)
Lemma rewind_after_mount (l : list value) (p : process) :
  fst (Helmet_rewind (mount l p)) = head_for l p.
Proof.
  unfold Helmet_rewind, helmet_recorded, head_for, mount. cbn.
  now destruct (helmet_mounted p ++ l)%list.
Qed.




(** The scenario of the posts page: status 200 and the snapshot of post 42
    after the binding. *)
Lemma post_42_served :
  match fst (on_match unit unit (VObj []) fetch_ok render_ok
               get_post_42 VNull None (Some post_route) idle) with
  | Ok (Sent status _ doc) =>
      status = 200
      /\ contains
           ("window.__INITIAL_STATE__ = {" ++ dq ++ "posts" ++ dq ++ ":{" ++ dq
            ++ "42" ++ dq ++ ":{" ++ dq ++ "id" ++ dq ++ ":42," ++ dq ++ "title"
            ++ dq ++ ":" ++ dq ++ "X" ++ dq ++ "}}};") doc = true
  | _ => False
  end.
Proof. vm_compute. split; reflexivity. Qed.

End RenderFacts.

(* ===================================================================== *)
(** * Part III: further properties of the file                            *)
(* ===================================================================== *)

(** ** The middleware and the assembler, path by path *)

Module RenderExtra.
Import Render JSONFacts RenderFacts.

(** X1.  When the router reports no error, no redirect and no matched
    route, the middleware calls [next()] without an error and leaves the
    process as it found it. *)
Theorem unmatched_route_defers (C P : Type)
    (match_ : string -> value * option location * option (renderProps C P))
    (configureStore : value)
    (fetchComponentData : value -> C -> P -> result value)
    (renderToString : value -> value -> renderProps C P -> rendering)
    (req : request) (p : process) (err : value) :
  match_ (url req) = (err, None, None) ->
  truthy err = false ->
  ssr C P match_ configureStore fetchComponentData renderToString req p
  = (Ok (Next None), p).
Proof.
  intros Hm He. unfold ssr. rewrite Hm. unfold on_match. now rewrite He.
Qed.

Lemma unmatched_route_defers_witness :
  ssr unit unit match_nothing (VObj []) fetch_ok render_ok get_post_42 idle
  = (Ok (Next None), idle).
Proof.
  apply (unmatched_route_defers unit unit match_nothing (VObj []) fetch_ok
           render_ok get_post_42 idle VNull); reflexivity.
Defined.

(** X2.  In production the answer to a route error does not depend on the
    error, nor on the request, nor on what else the router reported: the
    error detail stays out of the page, and an error takes precedence over
    a redirect and over a matched route. *)
Theorem production_hides_error_detail (C P : Type) (configureStore : value)
    (fetchComponentData : value -> C -> P -> result value)
    (renderToString : value -> value -> renderProps C P -> rendering)
    (req1 req2 : request) (p : process) (err1 err2 : value)
    (loc1 loc2 : option location) (props1 props2 : option (renderProps C P)) :
  production (env p) = true ->
  truthy err1 = true ->
  truthy err2 = true ->
  on_match C P configureStore fetchComponentData renderToString
    req1 err1 loc1 props1 p
  = on_match C P configureStore fetchComponentData renderToString
      req2 err2 loc2 props2 p.
Proof.
  intros Hp H1 H2. unfold on_match, renderError, errTrace.
  now rewrite H1, H2, Hp.
Qed.

Lemma production_hides_error_detail_witness :
  on_match unit unit (VObj []) fetch_ok render_ok
    get_post_42 route_error None (Some post_route) (with_env production_env idle)
  = on_match unit unit (VObj []) fetch_ok render_ok
      get_post_42 (VStr "boom")
      (Some {| pathname := "/posts"; search := "" |}) None
      (with_env production_env idle).
Proof.
  apply (production_hides_error_detail unit unit (VObj []) fetch_ok render_ok
           get_post_42 get_post_42 (with_env production_env idle)
           route_error (VStr "boom")); reflexivity.
Defined.


Lemma all_chars_app (test : ascii -> bool) (a b : string) :
  all_chars test (a ++ b) = all_chars test a && all_chars test b.
Proof.
  induction a as [|c a IH]; [reflexivity|].
  simpl. now rewrite IH, andb_assoc.
Qed.


Lemma replace_newlines_none (rep s : string) :
  all_chars not_line_feed s = true -> replace_newlines rep s = s.
Proof.
  induction s as [|c s IH]; [reflexivity|]. simpl.
  intro H. apply andb_true_iff in H. destruct H as [Hc Hs].
  unfold not_line_feed in Hc. apply negb_true_iff in Hc.
  now rewrite Hc, IH.
Qed.



(** X4.  Outside production, a stack without line feed goes into the
    error page as it is, markup included: the 500 document has it between
    the [pre] tags, unescaped. *)
Theorem error_page_shows_stack_unescaped (C P : Type) (configureStore : value)
    (fetchComponentData : value -> C -> P -> result value)
    (renderToString : value -> value -> renderProps C P -> rendering)
    (req : request) (p : process) (err : value) (s : string) (a : assets)
    (loc : option location) (props : option (renderProps C P)) :
  truthy err = true ->
  production (env p) = false ->
  get err "stack" = Ok (VStr s) ->
  all_chars not_line_feed s = true ->
  resolve_assets (env p) = Ok a ->
  fst (on_match C P configureStore fetchComponentData renderToString
         req err loc props p)
  = Ok (Sent 500 None
          (before_snapshot (fst (Helmet_rewind p)) a
             ("Server Error:<br><br><pre style=" ++ dq ++ "color:red" ++ dq
              ++ ">&#32;&#32;&#32;&#32;" ++ s ++ "</pre>")
           ++ "{}" ++ after_snapshot false a)).
Proof.
  intros He Hp Hs Hn Ha. unfold on_match, renderError, errTrace.
  rewrite He, Hp, Hs. cbn [negb bind].
  rewrite (renderFullPage_resolved _ _ p a Ha), Hp.
  rewrite (replace_newlines_none _ s Hn). cbn [fst].
  reflexivity.
Qed.

Lemma error_page_shows_stack_unescaped_witness :
  fst (on_match unit unit (VObj []) fetch_ok render_ok get_post_42
         (VObj [("stack", VStr "<script>alert(1)</script>")]) None None idle)
  = Ok (Sent 500 None
          (before_snapshot (fst (Helmet_rewind idle))
             {| stylesheet := ""; chunks := None;
                vendor := "/vendor.js"; app := "/app.js" |}
             ("Server Error:<br><br><pre style=" ++ dq ++ "color:red" ++ dq
              ++ ">&#32;&#32;&#32;&#32;" ++ "<script>alert(1)</script>"
              ++ "</pre>")
           ++ "{}"
           ++ after_snapshot false
                {| stylesheet := ""; chunks := None;
                   vendor := "/vendor.js"; app := "/app.js" |})).
Proof.
  apply (error_page_shows_stack_unescaped unit unit (VObj []) fetch_ok
           render_ok get_post_42 idle
           (VObj [("stack", VStr "<script>alert(1)</script>")])
           "<script>alert(1)</script>"
           {| stylesheet := ""; chunks := None;
              vendor := "/vendor.js"; app := "/app.js" |});
    reflexivity.
Defined.

(** X5.  Outside production, a route error whose [stack] is not a string
    (an error that is a plain string, an object without stack) makes the
    error page itself throw a TypeError: the exception leaves the callback,
    nothing is sent and the process is as it was. *)
Theorem error_without_stack_throws (C P : Type) (configureStore : value)
    (fetchComponentData : value -> C -> P -> result value)
    (renderToString : value -> value -> renderProps C P -> rendering)
    (req : request) (p : process) (err stack : value)
    (loc : option location) (props : option (renderProps C P)) :
  truthy err = true ->
  production (env p) = false ->
  get err "stack" = Ok stack ->
  (forall s, stack <> VStr s) ->
  on_match C P configureStore fetchComponentData renderToString
    req err loc props p
  = (Throw TypeError, p).
Proof.
  intros He Hp Hs Hn. unfold on_match, renderError, errTrace.
  rewrite He, Hp, Hs. cbn [negb bind].
  destruct stack; try reflexivity. now destruct (Hn s).
Qed.

Lemma error_without_stack_throws_witness :
  on_match unit unit (VObj []) fetch_ok render_ok get_post_42
    (VStr "boom") None None idle
  = (Throw TypeError, idle).
Proof.
  apply (error_without_stack_throws unit unit (VObj []) fetch_ok render_ok
           get_post_42 idle (VStr "boom") VUndefined None None);
    try reflexivity.
  intros s H. discriminate H.
Defined.

(** X6.  In production the assembler cannot work without the assets
    manifest: with [webpackAssets] unset, reading the stylesheet path
    throws a TypeError for every markup and snapshot; a page that was
    fetched and rendered then ends in [next(error)], and a route error is
    answered by an exception instead of the error page. *)
Theorem production_needs_assets_manifest (C P : Type) (configureStore : value)
    (fetchComponentData : value -> C -> P -> result value)
    (renderToString : value -> value -> renderProps C P -> rendering)
    (req : request) (p : process) (rp : renderProps C P)
    (fetched chunkManifest : value) (r : rendered) (err : value) :
  production (env p) = true ->
  webpackAssets (env p) = None ->
  load_manifest (webpackChunkAssets (env p)) = Ok chunkManifest ->
  fetchComponentData configureStore (components rp) (params rp) = Ok fetched ->
  outcome (renderToString fetched (user_agent req) rp) = Ok r ->
  truthy err = true ->
  (forall h html state, template (env p) h html state = Throw TypeError)
  /\ fst (on_match C P configureStore fetchComponentData renderToString
            req VNull None (Some rp) p)
     = Ok (Next (Some TypeError))
  /\ fst (on_match C P configureStore fetchComponentData renderToString
            req err None (Some rp) p)
     = Throw TypeError.
Proof.
  intros Hp Ha Hc Hf Hr He.
  assert (T : forall h html state, template (env p) h html state = Throw TypeError).
  { intros. unfold template. rewrite Ha, Hc, Hp. reflexivity. }
  split; [exact T|]. split.
  - unfold on_match. cbn [truthy]. rewrite Hf. cbv zeta. rewrite Hr.
    unfold renderFullPage. cbn. now rewrite T.
  - unfold on_match, renderError, errTrace. rewrite He, Hp. cbn [negb].
    unfold renderFullPage. cbn. now rewrite T.
Qed.

Lemma production_needs_assets_manifest_witness :
  (forall h html state,
     template (env (with_env bare_production idle)) h html state
     = Throw TypeError)
  /\ fst (on_match unit unit (VObj []) fetch_ok render_ok
            get_post_42 VNull None (Some post_route)
            (with_env bare_production idle))
     = Ok (Next (Some TypeError))
  /\ fst (on_match unit unit (VObj []) fetch_ok render_ok
            get_post_42 route_error None (Some post_route)
            (with_env bare_production idle))
     = Throw TypeError.
Proof.
  apply (production_needs_assets_manifest unit unit (VObj []) fetch_ok
           render_ok get_post_42 (with_env bare_production idle) post_route
           post_42_state VUndefined
           {| markup := "<h1>X</h1>"; store_after := post_42_state |}
           route_error);
    reflexivity.
Defined.

(** X7.  Outside production the content of the manifests does not reach
    the page: two environments that are not production and whose manifests
    both load give the same document, with the fixed script paths. *)
Theorem development_ignores_manifests (e1 e2 : environment) (h : head)
    (html : string) (state a1 c1 a2 c2 : value) :
  production e1 = false ->
  production e2 = false ->
  load_manifest (webpackAssets e1) = Ok a1 ->
  load_manifest (webpackChunkAssets e1) = Ok c1 ->
  load_manifest (webpackAssets e2) = Ok a2 ->
  load_manifest (webpackChunkAssets e2) = Ok c2 ->
  template e1 h html state = template e2 h html state
  /\ template e1 h html state
     = Ok (page_top h "" html
           ++ inline_script false (JSON_stringify state) None
           ++ page_bottom "/vendor.js" "/app.js").
Proof.
  intros P1 P2 A1 C1 A2 C2.
  assert (T : forall e a c, production e = false ->
            load_manifest (webpackAssets e) = Ok a ->
            load_manifest (webpackChunkAssets e) = Ok c ->
            template e h html state
            = Ok (page_top h "" html
                  ++ inline_script false (JSON_stringify state) None
                  ++ page_bottom "/vendor.js" "/app.js")).
  { intros e a c Hp Ha Hc. unfold template. rewrite Ha, Hc, Hp. reflexivity. }
  rewrite (T e1 a1 c1), (T e2 a2 c2) by assumption. now split.
Qed.

Lemma development_ignores_manifests_witness :
  template development titled "<h1>X</h1>" post_42_state
  = template {| NODE_ENV := None;
                webpackAssets := webpackAssets production_env;
                webpackChunkAssets := Some "" |}
      titled "<h1>X</h1>" post_42_state
  /\ template development titled "<h1>X</h1>" post_42_state
     = Ok (page_top titled "" "<h1>X</h1>"
           ++ inline_script false (JSON_stringify post_42_state) None
           ++ page_bottom "/vendor.js" "/app.js").
Proof.
  apply (development_ignores_manifests development
           {| NODE_ENV := None;
              webpackAssets := webpackAssets production_env;
              webpackChunkAssets := Some "" |}
           titled "<h1>X</h1>" post_42_state
           VUndefined VUndefined
           (VObj [("/app.css", VStr "/app.1a.css");
                  ("/vendor.js", VStr "/vendor.2b.js");
                  ("/app.js", VStr "/app.3c.js")])
           (VStr ""));
    reflexivity.
Defined.

(** X8.  The manifests are parsed on every call, whatever [NODE_ENV] is:
    an assets manifest that is set, not empty and not JSON makes the
    assembler throw the parser's error for every page, also outside
    production where the manifest is not used. *)
Theorem malformed_manifest_breaks_every_page (e : environment) (s : string)
    (x : exn) (h : head) (html : string) (state : value) :
  webpackAssets e = Some s ->
  s <> "" ->
  JSON_parse s = Throw x ->
  template e h html state = Throw x.
Proof.
  intros Ha Hs Hx. unfold template, load_manifest. rewrite Ha.
  destruct (String.eqb_spec s "") as [->|_]; [contradiction|].
  now rewrite Hx.
Qed.

Lemma malformed_manifest_breaks_every_page_witness :
  template {| NODE_ENV := Some "development";
              webpackAssets := Some "{";
              webpackChunkAssets := None |}
    no_fragments "" (VObj [])
  = Throw SyntaxError.
Proof.
  apply (malformed_manifest_breaks_every_page _ "{" SyntaxError);
    [reflexivity|discriminate|reflexivity].
Defined.

(** X9.  When the data are fetched and the render throws, the middleware
    hands the exception to the next handler and assembles nothing.
    [Helmet.rewind()] is not called, so the Helmet instances the failed
    render had mounted stay in the singleton with those that were there:
    the next document assembled in the process gets its head fragments
    from them, whatever it is assembled for. *)
Theorem render_failure_goes_to_next (C P : Type) (configureStore : value)
    (fetchComponentData : value -> C -> P -> result value)
    (renderToString : value -> value -> renderProps C P -> rendering)
    (req : request) (p : process) (err : value) (rp : renderProps C P)
    (fetched : value) (e : exn) :
  truthy err = false ->
  fetchComponentData configureStore (components rp) (params rp) = Ok fetched ->
  outcome (renderToString fetched (user_agent req) rp) = Throw e ->
  let run := renderToString fetched (user_agent req) rp in
  let out := on_match C P configureStore fetchComponentData renderToString
               req err None (Some rp) p in
  fst out = Ok (Next (Some e))
  /\ trace (snd out)
     = (trace p ++ [Call_configureStore; Call_fetchComponentData;
                    Call_renderToString])%list
  /\ helmet_mounted (snd out) = (helmet_mounted p ++ mounted run)%list
  /\ (forall html state,
        fst (renderFullPage html state (snd out))
        = template (env p) (head_for (mounted run) p) html state).
Proof.
  intros He Hf Hr run out. unfold out, on_match. rewrite He, Hf. cbv zeta.
  rewrite Hr. fold run. cbn [fst snd].
  split; [reflexivity|]. split; [cbn; now rewrite <- !app_assoc|].
  split; [reflexivity|].
  intros html state. unfold renderFullPage.
  destruct (Helmet_rewind _) as [h q] eqn:E. cbn [fst].
  assert (Hh : h = head_for (mounted run) p).
  { change h with (fst (h, q)). rewrite <- E, rewind_after_mount. reflexivity. }
  assert (Hq : env q = env p) by (injection E as _ <-; reflexivity).
  now rewrite Hh, Hq.
Qed.

Lemma render_failure_goes_to_next_witness :
  let run := render_throws post_42_state (user_agent get_post_42) post_route in
  let out := on_match unit unit (VObj []) fetch_ok render_throws
               get_post_42 VNull None (Some post_route) rendered_once in
  fst out = Ok (Next (Some (Rejected (VStr "Invariant Violation"))))
  /\ trace (snd out)
     = (trace rendered_once ++ [Call_configureStore; Call_fetchComponentData;
                                Call_renderToString])%list
  /\ helmet_mounted (snd out) = (helmet_mounted rendered_once ++ mounted run)%list
  /\ (forall html state,
        fst (renderFullPage html state (snd out))
        = template (env rendered_once) (head_for (mounted run) rendered_once)
            html state).
Proof.
  apply (render_failure_goes_to_next unit unit (VObj []) fetch_ok
           render_throws get_post_42 rendered_once VNull post_route
           post_42_state (Rejected (VStr "Invariant Violation")));
    reflexivity.
Defined.





End RenderExtra.

(** ** The serialization inside the page *)

Module JSONExtra.
Import JSONFacts RenderExtra.

Lemma all_chars_concat (test : ascii -> bool) (sep : string) (l : list string) :
  all_chars test sep = true ->
  Forall (fun t => all_chars test t = true) l ->
  all_chars test (String.concat sep l) = true.
Proof.
  intros Hs. induction 1 as [|t l Ht Hl IH]; [reflexivity|].
  destruct l as [|u l]; [exact Ht|].
  change (String.concat sep (t :: u :: l))
    with (t ++ sep ++ String.concat sep (u :: l)).
  now rewrite !all_chars_app, Ht, Hs, IH.
Qed.

Lemma escape_code_unit_printable (c : ascii) :
  all_chars printable (escape_code_unit c) = true.
Proof. destruct c as [[] [] [] [] [] [] [] []]; reflexivity. Qed.

Lemma escape_string_printable (s : string) :
  all_chars printable (escape_string s) = true.
Proof.
  induction s as [|c s IH]; [reflexivity|].
  simpl. now rewrite all_chars_app, escape_code_unit_printable, IH.
Qed.

Lemma quote_printable (s : string) :
  all_chars printable (QuoteJSONString s) = true.
Proof.
  unfold QuoteJSONString.
  now rewrite !all_chars_app, escape_string_printable.
Qed.

Lemma uint_printable (d : Decimal.uint) :
  all_chars printable (DecimalString.NilEmpty.string_of_uint d) = true.
Proof. induction d; simpl; try assumption; reflexivity. Qed.

Lemma Number_toString_printable (n : number) :
  all_chars printable (Number_toString n) = true.
Proof.
  destruct (Number_toString_canonical n) as (d & _ & [[-> _] | [-> _]]).
  - apply uint_printable.
  - simpl. apply uint_printable.
Qed.

(** X13.  What [JSON.stringify] writes holds no control character,
    whatever the value: the serialized snapshot and the serialized chunk
    manifest each stay on the line of their binding. *)
Theorem serialization_stays_on_one_line (v : value) :
  all_chars printable (interpolate (JSON_stringify v)) = true
  /\ all_chars not_line_feed (interpolate (JSON_stringify v)) = true.
Proof.
  assert (P : forall v, all_chars printable (interpolate (JSON_stringify v)) = true).
  { clear v. intro v.
    induction v as [ | |b|n|s|l IH|l IH] using value_nested_ind;
      try reflexivity.
    - destruct b; reflexivity.
    - apply Number_toString_printable.
    - apply quote_printable.
    - rewrite stringify_arr. cbn [interpolate].
      rewrite !all_chars_app, all_chars_concat; [reflexivity|reflexivity|].
      rewrite Forall_map. rewrite Forall_forall in IH |- *.
      intros x Hx. specialize (IH x Hx). unfold elem_text.
      destruct (JSON_stringify x); [exact IH|reflexivity].
    - rewrite stringify_members. cbn [interpolate].
      rewrite !all_chars_app, all_chars_concat; [reflexivity|reflexivity|].
      induction l as [|[k x] l IHl]; [constructor|].
      inversion IH as [|? ? Hx Hl]; subst. cbn [snd] in Hx.
      cbn [member_texts].
      destruct (JSON_stringify x) as [t|]; [|now apply IHl].
      constructor; [|now apply IHl].
      cbn [interpolate] in Hx.
      now rewrite !all_chars_app, quote_printable, Hx. }
  split; [apply P|].
  specialize (P v). revert P.
  generalize (interpolate (JSON_stringify v)) as t.
  induction t as [|c t IH]; [reflexivity|]. simpl.
  intro H. apply andb_true_iff in H. destruct H as [Hc Ht].
  rewrite (IH Ht), andb_true_r.
  destruct c as [[] [] [] [] [] [] [] []]; try reflexivity; discriminate Hc.
Qed.

End JSONExtra.

(** ** The connection list and the relay, over whole runs *)

Module SocketExtra.
Import Sockets SocketFacts.

(** X14.  In every state the server goes through, the array [clients]
    lists exactly the sockets socket.io holds connected, in connection
    order and without repetition; a new connection goes last. *)
Theorem registry_tracks_connections (st : server) (s : socket) :
  reachable st ->
  clients st = sockets st
  /\ NoDup (clients st)
  /\ (~ In s (sockets st) ->
      exists st', dispatch (Connection s) st = Ok st'
                  /\ reachable st'
                  /\ clients st' = (clients st ++ [s])%list
                  /\ sockets st' = clients st').
Proof.
  intro Hr. destruct (reachable_clients st Hr) as [Heq Hnd].
  split; [exact Heq|]. split; [exact Hnd|].
  intro Hn. eexists. split; [reflexivity|].
  assert (R : reachable (on_connection s
                {| clients := clients st; sockets := (sockets st ++ [s])%list;
                   outbox := outbox st |})).
  { apply (reachable_step (Connection s) st); [assumption| |reflexivity].
    simpl. split; [assumption|now rewrite Heq]. }
  split; [exact R|]. split; [reflexivity|].
  symmetry. apply (reachable_clients _ R).
Qed.

Lemma registry_tracks_connections_witness :
  clients three_clients = sockets three_clients
  /\ NoDup (clients three_clients)
  /\ (~ In "D" (sockets three_clients) ->
      exists st', dispatch (Connection "D") three_clients = Ok st'
                  /\ reachable st'
                  /\ clients st' = (clients three_clients ++ ["D"])%list
                  /\ sockets st' = clients st').
Proof.
  apply (registry_tracks_connections three_clients "D").
  apply (reachable_step (Connection "C")
           {| clients := ["A"; "B"]; sockets := ["A"; "B"]; outbox := [] |});
    [|simpl; intuition discriminate|reflexivity].
  apply (reachable_step (Connection "B")
           {| clients := ["A"]; sockets := ["A"]; outbox := [] |});
    [|simpl; intuition discriminate|reflexivity].
  apply (reachable_step (Connection "A") initial);
    [apply reachable_initial|simpl; intuition|reflexivity].
Defined.

(** X15.  The disconnect handler takes out the first occurrence of its
    socket and nothing else: the sockets before it and after it stay, in
    their order. *)
Theorem disconnect_removes_first_occurrence (st : server) (s : socket)
    (before after : list socket) :
  clients st = (before ++ s :: after)%list ->
  ~ In s before ->
  clients (on_disconnect s st) = (before ++ after)%list
  /\ sockets (on_disconnect s st) = sockets st
  /\ outbox (on_disconnect s st) = outbox st.
Proof.
  intros Hc Hn. unfold on_disconnect. simpl. rewrite Hc.
  now rewrite (splice_indexOf_first String.eqb String.eqb_eq).
Qed.

Lemma disconnect_removes_first_occurrence_witness :
  clients (on_disconnect "B" three_clients) = (["A"] ++ ["C"])%list
  /\ sockets (on_disconnect "B" three_clients) = sockets three_clients
  /\ outbox (on_disconnect "B" three_clients) = outbox three_clients.
Proof.
  apply (disconnect_removes_first_occurrence three_clients "B" ["A"] ["C"]).
  - reflexivity.
  - simpl. intros [H|[]]. discriminate H.
Defined.

(** X16.  Every run of the disconnect handler shortens the array by one
    entry, whether its socket is there or not; only the empty array keeps
    its length. *)
Theorem disconnect_always_shrinks (st : server) (s : socket) :
  List.length (clients (on_disconnect s st))
  = Nat.pred (List.length (clients st)).
Proof.
  destruct (in_dec string_dec s (clients st)) as [Hin|Hn].
  - destruct (in_first_occurrence String.eqb String.eqb_eq _ _ Hin)
      as (l1 & l2 & E & Hn1).
    unfold on_disconnect. simpl. rewrite E.
    rewrite (splice_indexOf_first String.eqb String.eqb_eq) by assumption.
    rewrite !length_app. simpl. lia.
  - rewrite on_disconnect_absent by assumption.
    destruct (clients st) as [|x l] using rev_ind; [reflexivity|].
    rewrite removelast_last, length_app. simpl. lia.
Qed.

(** X17.  A client event never changes who is connected: whatever its
    name and arguments, when its handler returns the two lists of sockets
    are as before and the outbox has only grown. *)
Theorem client_event_keeps_connections (s : socket) (pk : packet)
    (st st' : server) :
  dispatch (Event s pk) st = Ok st' ->
  clients st' = clients st
  /\ sockets st' = sockets st
  /\ outbox st' = (outbox st ++ emitted st st')%list.
Proof.
  intro H. simpl in H.
  assert (G : forall p, io_sockets_emit p st = st' ->
            clients st' = clients st /\ sockets st' = sockets st
            /\ outbox st' = (outbox st ++ emitted st st')%list).
  { intros p <-. rewrite emitted_io_sockets_emit. now repeat split. }
  assert (N : st = st' ->
            clients st' = clients st /\ sockets st' = sockets st
            /\ outbox st' = (outbox st ++ emitted st st')%list).
  { intros <-. rewrite emitted_nothing, app_nil_r. now repeat split. }
  destruct (String.eqb (event pk) "action").
  - set (action := match args pk with a :: _ => a | [] => VUndefined end) in H.
    destruct (get action "type") as [t|e|] eqn:Ht.
    + rewrite (on_action_table s action t st Ht) in H.
      destruct t as [ | |b|n|k|l|l]; try (injection H as H; now apply N).
      destruct (public_kind k) as [[pub field]|];
        [|injection H as H; now apply N].
      destruct (get action field); try discriminate.
      injection H as H. now apply (G _ H).
    + unfold on_action in H. rewrite Ht in H. discriminate.
    + unfold on_action in H. rewrite Ht in H. discriminate.
  - destruct (String.eqb (event pk) "refresh bloglist").
    { injection H as H. now apply (G _ H). }
    destruct (String.eqb (event pk) "refresh commentlist").
    { injection H as H. now apply (G _ H). }
    injection H as H. now apply N.
Qed.

Lemma client_event_keeps_connections_witness :
  let pk := {| event := "action"; args := [add_post_7] |} in
  let st' := io_sockets_emit
               (translated "ADD_POST" "post" (VObj [("id", VNum 7)]))
               three_clients in
  clients st' = clients three_clients
  /\ sockets st' = sockets three_clients
  /\ outbox st' = (outbox three_clients ++ emitted three_clients st')%list.
Proof.
  intros pk st'.
  apply (client_event_keeps_connections "A" pk three_clients st').
  reflexivity.
Defined.

(** X18.  The three tests of the [action] handler never fire together:
    an action that is handled without exception is broadcast once, one
    packet for each connected socket in connection order, or not at
    all. *)
Theorem action_broadcast_at_most_once (s : socket) (action : value)
    (st st' : server) :
  on_action s action st = Ok st' ->
  emitted st st' = []
  \/ exists pk, emitted st st' = map (fun c => (c, pk)) (sockets st)
                /\ event pk = "action".
Proof.
  intro H.
  destruct (get action "type") as [t|e|] eqn:Ht.
  - rewrite (on_action_table s action t st Ht) in H.
    assert (N : Ok st = Ok st' -> emitted st st' = []).
    { intros [= <-]. apply emitted_nothing. }
    destruct t as [ | |b|n|k|l|l]; try (left; now apply N).
    destruct (public_kind k) as [[pub field]|]; [|left; now apply N].
    destruct (get action field) as [payload|x|]; try discriminate.
    injection H as <-. right. exists (translated pub field payload).
    split; [apply emitted_io_sockets_emit|reflexivity].
  - unfold on_action in H. rewrite Ht in H. discriminate.
  - unfold on_action in H. rewrite Ht in H. discriminate.
Qed.

Lemma action_broadcast_at_most_once_witness :
  let st' := io_sockets_emit
               (translated "ADD_POST" "post" (VObj [("id", VNum 7)]))
               three_clients in
  emitted three_clients st' = []
  \/ exists pk, emitted three_clients st'
                = map (fun c => (c, pk)) (sockets three_clients)
                /\ event pk = "action".
Proof.
  intro st'.
  apply (action_broadcast_at_most_once "A" add_post_7 three_clients st').
  reflexivity.
Defined.

(** X19.  What the [action] handler does depends on three properties of
    the action only, its type, its post and its comment: the sender and
    every other property of the action have no effect on what is emitted. *)
Theorem relay_reads_three_properties (s1 s2 : socket) (a1 a2 : value)
    (st : server) :
  get a1 "type" = get a2 "type" ->
  get a1 "post" = get a2 "post" ->
  get a1 "comment" = get a2 "comment" ->
  on_action s1 a1 st = on_action s2 a2 st.
Proof.
  intros Ht Hp Hc. unfold on_action. now rewrite Ht, Hp, Hc.
Qed.

Lemma relay_reads_three_properties_witness :
  on_action "A" add_post_7 three_clients
  = on_action "B"
      (VObj [("secret", VStr "token"); ("post", VObj [("id", VNum 7)]);
             ("type", VStr "server/addPost")])
      three_clients.
Proof.
  apply (relay_reads_three_properties "A" "B" add_post_7
           (VObj [("secret", VStr "token"); ("post", VObj [("id", VNum 7)]);
                  ("type", VStr "server/addPost")])
           three_clients); reflexivity.
Defined.

(** X20.  A mutation event of a known kind that lacks its payload is
    still relayed, with [undefined] as payload: the handler does not
    look at the payload before it emits. *)
Theorem missing_payload_relayed_as_undefined (s : socket) (st : server)
    (l : list (string * value)) (k pub field : string) :
  lookup "type" l = Some (VStr k) ->
  public_kind k = Some (pub, field) ->
  lookup field l = None ->
  on_action s (VObj l) st
  = Ok (io_sockets_emit (translated pub field VUndefined) st).
Proof.
  intros Ht Hk Hf.
  assert (G : get (VObj l) "type" = Ok (VStr k)) by (simpl; now rewrite Ht).
  rewrite (on_action_table s (VObj l) (VStr k) st G), Hk.
  simpl. now rewrite Hf.
Qed.

Lemma missing_payload_relayed_as_undefined_witness :
  on_action "A" (VObj [("type", VStr "server/addComment")]) three_clients
  = Ok (io_sockets_emit (translated "ADD_COMMENT" "comment" VUndefined)
          three_clients).
Proof.
  apply (missing_payload_relayed_as_undefined "A" three_clients
           [("type", VStr "server/addComment")] "server/addComment"
           "ADD_COMMENT" "comment"); reflexivity.
Defined.

Lemma public_kind_cases (k pub field : string) :
  public_kind k = Some (pub, field) ->
  (pub, field) = ("ADD_POST", "post")
  \/ (pub, field) = ("UPDATE_POST", "post")
  \/ (pub, field) = ("ADD_COMMENT", "comment").
Proof.
  unfold public_kind.
  destruct (String.eqb k "server/addPost"); [intros [= <- <-]; auto|].
  destruct (String.eqb k "server/updatePost"); [intros [= <- <-]; auto|].
  destruct (String.eqb k "server/addComment"); [intros [= <- <-]; auto|].
  discriminate.
Qed.

Lemma emittable_translated (k pub field : string) (payload : value) :
  public_kind k = Some (pub, field) -> emittable (translated pub field payload).
Proof.
  intro H. unfold emittable.
  destruct (public_kind_cases k pub field H) as [E|[E|E]];
    injection E as -> ->; eauto 6.
Qed.

(** X21.  In every state the server goes through, every packet of the
    outbox is one of the three translated mutation events or one of the
    two refresh events without argument: what a client sends is never
    passed on under its own kind, and nothing else is ever emitted. *)
Theorem only_public_packets_emitted (st : server) :
  reachable st ->
  forall c pk, In (c, pk) (outbox st) -> emittable pk.
Proof.
  induction 1 as [|i st st' Hr IH Hadm Hstep]; [intros c pk []|].
  assert (G : forall p, emittable p -> io_sockets_emit p st = st' ->
            forall c pk, In (c, pk) (outbox st') -> emittable pk).
  { intros p Hp <- c pk Hin. simpl in Hin. apply in_app_or in Hin.
    destruct Hin as [Hin|Hin]; [now apply (IH c)|].
    apply in_map_iff in Hin. destruct Hin as (c' & [= _ <-] & _). exact Hp. }
  destruct i as [s|s|s pk0]; simpl in Hstep.
  - injection Hstep as <-. exact IH.
  - injection Hstep as <-. exact IH.
  - destruct (String.eqb (event pk0) "action").
    + set (action := match args pk0 with a :: _ => a | [] => VUndefined end)
        in Hstep.
      destruct (get action "type") as [t|e|] eqn:Ht.
      * rewrite (on_action_table s action t st Ht) in Hstep.
        destruct t as [ | |b|n|k|l|l]; try (injection Hstep as <-; exact IH).
        destruct (public_kind k) as [[pub field]|] eqn:Hk;
          [|injection Hstep as <-; exact IH].
        destruct (get action field) as [payload|x|]; try discriminate.
        injection Hstep as Hstep.
        apply (G _ (emittable_translated k pub field payload Hk) Hstep).
      * unfold on_action in Hstep. rewrite Ht in Hstep. discriminate.
      * unfold on_action in Hstep. rewrite Ht in Hstep. discriminate.
    + destruct (String.eqb (event pk0) "refresh bloglist").
      { injection Hstep as Hstep.
        apply (G {| event := "refresh bloglist"; args := [] |});
          [unfold emittable; auto 6|exact Hstep]. }
      destruct (String.eqb (event pk0) "refresh commentlist").
      { injection Hstep as Hstep.
        apply (G {| event := "refresh commentlist"; args := [] |});
          [unfold emittable; auto 6|exact Hstep]. }
      injection Hstep as <-. exact IH.
Qed.

Lemma only_public_packets_emitted_witness :
  reachable
    (io_sockets_emit (translated "ADD_POST" "post" (VObj [("id", VNum 7)]))
       three_clients)
  /\ (forall c pk,
        In (c, pk)
           (outbox (io_sockets_emit
                      (translated "ADD_POST" "post" (VObj [("id", VNum 7)]))
                      three_clients)) ->
        emittable pk).
Proof.
  assert (R : reachable
                (io_sockets_emit
                   (translated "ADD_POST" "post" (VObj [("id", VNum 7)]))
                   three_clients)).
  { apply (reachable_step
             (Event "A" {| event := "action"; args := [add_post_7] |})
             three_clients); [|simpl; auto|reflexivity].
    apply (reachable_step (Connection "C")
             {| clients := ["A"; "B"]; sockets := ["A"; "B"]; outbox := [] |});
      [|simpl; intuition discriminate|reflexivity].
    apply (reachable_step (Connection "B")
             {| clients := ["A"]; sockets := ["A"]; outbox := [] |});
      [|simpl; intuition discriminate|reflexivity].
    apply (reachable_step (Connection "A") initial);
      [apply reachable_initial|simpl; intuition|reflexivity]. }
  split; [exact R|].
  exact (only_public_packets_emitted _ R).
Defined.

End SocketExtra.
